(** * pepr3d: the text-to-mesh rasterizer (src/geometry/FontRasterizer.cpp)

    A shallow embedding of [FontRasterizer] and the properties of its
    four member functions: [rasterizeText], [outlinePostprocess],
    [triangulateContour] and [addOneCharacter].

    Conventions of the embedding.
    - [float] and [double] values are exact rationals ([Q]); the casts
      between them are the identity and the rounding of the arithmetic
      is not modelled.  Numeric equalities are stated with [==].  Where
      the rounding or a cast bears on a property, the functions are
      modelled again on IEEE binary32 and binary64 values, in the module
      [Rounded].
    - [FT_Pos], [FT_UInt] and [size_t] values are integers ([Z]).
    - FreeType, the [Vectoriser] and poly2tri are not part of the
      repository: they are taken as interfaces ([FreeType],
      [Outliner], [Poly2Tri]) over which every theorem quantifies.
    - A call either returns, throws, terminates the process or has no
      defined behaviour ([Outcome]); the state threaded through the calls
      is the font face, the function-local statics of [addOneCharacter]
      and the standard output. *)

From Stdlib Require Import ZArith QArith Qabs String Ascii List Bool Lia Lqa.
From Stdlib Require SpecFloat.
Import ListNotations.

Local Open Scope Q_scope.

(** ** Output data: [glm::vec3] and [FontRasterizer::Tri] *)

Record vec3 : Type := mkVec3 { x : Q; y : Q; z : Q }.

Record Tri : Type := mkTri { a : vec3; b : vec3; c : vec3 }.

(** The triangles of one letter, and of the whole text. *)
Definition GlyphRun : Type := list Tri.
Definition TextMesh : Type := list GlyphRun.

(** The three corners of a triangle, in the order the code visits them. *)
Definition corners (t : Tri) : list vec3 := [a t; b t; c t].

Definition vertices (m : TextMesh) : list vec3 :=
  flat_map corners (concat m).

(** The heights of all vertices, in the order the first pass reads them. *)
Definition ys (m : TextMesh) : list Q := map y (vertices m).

(** ** [outlinePostprocess] *)

(** [std::numeric_limits<float>::max()] *)
Definition FLT_MAX : Q := inject_Z ((2 ^ 24 - 1) * 2 ^ 104).

(** [if(min > v) min = v;] *)
Definition lower (min v : Q) : Q :=
  if Qle_bool min v then min else v.

(** The body of the inner loop of the first pass, for one triangle. *)
Definition lowerTri (min : Q) (t : Tri) : Q :=
  lower (lower (lower min (y (a t))) (y (b t))) (y (c t)).

(** The first pass: both loops, over the letters and over their triangles. *)
Definition findMin (trianglesPerLetter : TextMesh) : Q :=
  fold_left (fun min letterTriangles => fold_left lowerTri letterTriangles min)
            trianglesPerLetter FLT_MAX.

Definition raise (addToZero : Q) (v : vec3) : vec3 :=
  mkVec3 (x v) (y v + addToZero) (z v).

(** [t.a.y += addToZero; t.b.y += addToZero; t.c.y += addToZero;], the sums
    taken exactly; [Rounded.raiseTri] has the binary32 additions. *)
Definition raiseTri (addToZero : Q) (t : Tri) : Tri :=
  mkTri (raise addToZero (a t)) (raise addToZero (b t)) (raise addToZero (c t)).

(** The vector is updated in place; the embedding returns the new one.
    [abs] is the floating-point absolute value. *)
Definition outlinePostprocess (trianglesPerLetter : TextMesh) : TextMesh :=
  let min := findMin trianglesPerLetter in
  let addToZero := Qabs min in
  map (map (raiseTri addToZero)) trianglesPerLetter.

(** ** The collaborators: FreeType, the Vectoriser and poly2tri *)

Definition FT_Error : Type := Z.
Definition FT_UInt : Type := Z.
Definition FT_Pos : Type := Z.

Module FT_Vector.
Record t : Type := mk { x : FT_Pos; y : FT_Pos }.
End FT_Vector.

Inductive FT_Glyph_Format : Type :=
| FT_GLYPH_FORMAT_NONE
| FT_GLYPH_FORMAT_COMPOSITE
| FT_GLYPH_FORMAT_BITMAP
| FT_GLYPH_FORMAT_OUTLINE
| FT_GLYPH_FORMAT_PLOTTER.

Definition is_outline (f : FT_Glyph_Format) : bool :=
  match f with FT_GLYPH_FORMAT_OUTLINE => true | _ => false end.

(** [FT_Outline]: the points of all contours in 26.6 fixed point and, for
    each contour, the index of its last point. *)
Record FT_Outline : Type := mkOutline {
  n_contours : Z;
  points : list FT_Vector.t;
  contours : list nat
}.

(** The fields of [FT_GlyphSlotRec] the rasterizer and the Vectoriser read. *)
Record FT_GlyphSlotRec : Type := mkSlot {
  slot_format : FT_Glyph_Format;
  advance : FT_Vector.t;
  lsb_delta : FT_Pos;
  rsb_delta : FT_Pos;
  outline : FT_Outline
}.

(** [FT_GlyphRec], what [FT_Get_Glyph] allocates. *)
Record FT_GlyphRec : Type := mkGlyph { format : FT_Glyph_Format }.

Definition FT_LOAD_DEFAULT : Z := 0.
Definition FT_KERNING_DEFAULT : Z := 0.

(** The FreeType calls of the rasterizer.  A face is a mutable object: the
    calls that change it return the new face next to their error code.
    [FT_Get_Glyph] gives [None] when it returns an error and leaves the
    caller's [FT_Glyph] unset.  The character code is the [char] as passed. *)
Class FreeType : Type := {
  FT_FaceRec : Type;
  glyph : FT_FaceRec -> FT_GlyphSlotRec;
  FT_HAS_KERNING : FT_FaceRec -> bool;
  FT_Set_Char_Size : FT_FaceRec -> Z -> Z -> Z -> Z -> FT_Error * FT_FaceRec;
  FT_Get_Char_Index : FT_FaceRec -> ascii -> FT_UInt;
  FT_Load_Glyph : FT_FaceRec -> FT_UInt -> Z -> FT_Error * FT_FaceRec;
  FT_Get_Glyph : FT_GlyphSlotRec -> option FT_GlyphRec;
  FT_Get_Kerning : FT_FaceRec -> FT_UInt -> FT_UInt -> Z -> FT_Vector.t
}.

(** [p2t::Point] and [p2t::Triangle] ([GetPoint(0)], [GetPoint(1)],
    [GetPoint(2)]). *)
Definition Point : Type := (Q * Q)%type.

Record Triangle : Type := mkTriangle { p0 : Point; p1 : Point; p2 : Point }.

(** A [Contour] of the Vectoriser: its points ([PointCount], [GetPoint])
    and its direction flag. *)
Record Contour : Type := mkContour {
  GetPoints : list (Q * Q);
  GetDirection : bool
}.

(** [Vectoriser_new slot steps] is the contour list of
    [new Vectoriser(slot, steps)]; [IsInside sm big] is [sm->IsInside(big)]. *)
Class Outliner : Type := {
  Vectoriser_new : FT_GlyphSlotRec -> Z -> list Contour;
  IsInside : Contour -> Contour -> bool
}.

(** [new p2t::CDT(polyline)], [AddHole] for each hole, [Triangulate] and
    [GetTriangles]; [None] when poly2tri throws. *)
Class Poly2Tri : Type := {
  CDT_Triangulate : list Point -> list (list Point) -> option (list Triangle)
}.

(** ** Calls, their state and their outcomes *)

Section Rasterizer.

Context {FT : FreeType} {VE : Outliner} {P2T : Poly2Tri}.

(** [mFace], the three function-local statics of [addOneCharacter], and what
    [printf] has written, oldest line first. *)
Record World : Type := mkWorld {
  mFace : FT_FaceRec;
  prevCharIndex : FT_UInt;
  curCharIndex : FT_UInt;
  prev_rsb_delta : FT_Pos;
  stdout : list string
}.

(** The state of a process that has not called the rasterizer yet. *)
Definition freshWorld (face : FT_FaceRec) : World :=
  mkWorld face 0%Z 0%Z 0%Z [].

Inductive Outcome (A : Type) : Type :=
| Returned (v : A) (w : World)      (* the call returns [v] *)
| Threw (w : World)                 (* an exception leaves the call *)
| Exited (status : Z) (w : World)   (* [exit(status)] *)
| Undefined (w : World).            (* a read through an unset pointer *)

Arguments Returned {A} v w.
Arguments Threw {A} w.
Arguments Exited {A} status w.
Arguments Undefined {A} w.

Definition M (A : Type) : Type := World -> Outcome A.

Definition ret {A : Type} (v : A) : M A := fun w => Returned v w.

Definition bind {A B : Type} (m : M A) (k : A -> M B) : M B :=
  fun w =>
    match m w with
    | Returned v w' => k v w'
    | Threw w' => Threw w'
    | Exited s w' => Exited s w'
    | Undefined w' => Undefined w'
    end.

Notation "v <- m ;; k" := (bind m (fun v => k))
  (at level 61, m at next level, right associativity).
Notation "m ;;; k" := (bind m (fun _ => k))
  (at level 61, right associativity).

Definition get : M World := fun w => Returned w w.
Definition throw {A : Type} : M A := fun w => Threw w.
Definition exit {A : Type} (status : Z) : M A := fun w => Exited status w.
Definition undefined {A : Type} : M A := fun w => Undefined w.

Definition with_mFace (f : FT_FaceRec) (w : World) : World :=
  mkWorld f (prevCharIndex w) (curCharIndex w) (prev_rsb_delta w) (stdout w).

Definition with_prevCharIndex (i : FT_UInt) (w : World) : World :=
  mkWorld (mFace w) i (curCharIndex w) (prev_rsb_delta w) (stdout w).

Definition with_curCharIndex (i : FT_UInt) (w : World) : World :=
  mkWorld (mFace w) (prevCharIndex w) i (prev_rsb_delta w) (stdout w).

Definition with_prev_rsb_delta (d : FT_Pos) (w : World) : World :=
  mkWorld (mFace w) (prevCharIndex w) (curCharIndex w) d (stdout w).

Definition with_line (s : string) (w : World) : World :=
  mkWorld (mFace w) (prevCharIndex w) (curCharIndex w) (prev_rsb_delta w)
          (stdout w ++ [s]).

Definition modify (f : World -> World) : M unit := fun w => Returned tt (f w).

Definition printf (s : string) : M unit := modify (with_line s).
Definition set_mFace (f : FT_FaceRec) : M unit := modify (with_mFace f).
Definition set_prevCharIndex (i : FT_UInt) : M unit :=
  modify (with_prevCharIndex i).
Definition set_curCharIndex (i : FT_UInt) : M unit :=
  modify (with_curCharIndex i).
Definition set_prev_rsb_delta (d : FT_Pos) : M unit :=
  modify (with_prev_rsb_delta d).

(** [if(e) printf(msg);] for an error code [e]. *)
Definition report (e : FT_Error) (msg : string) : M unit :=
  if (e =? 0)%Z then ret tt else printf msg.


Definition newline : string := String (ascii_of_nat 10) EmptyString.

(** ** [triangulateContour] *)

(** [vectoriser->GetContour(c)]; the loops below only ask for
    [c < ContourCount()]. *)
Definition GetContour (vectoriser : list Contour) (c : nat) : Contour :=
  nth c vectoriser (mkContour [] false).

Definition triangulateContour (vectoriser : list Contour) (c : nat)
    (offset : Q) : list Point :=
  let contour := GetContour vectoriser c in
  map (fun d => (fst d / 64 + offset, snd d / 64)) (GetPoints contour).

(** ** [addOneCharacter] *)

(** The inner loop over [cm]: the polylines handed to [cdt->AddHole]. *)
Definition holesOf (vectoriser : list Contour) (c : nat) (contour : Contour)
    (offset : Q) : list (list Point) :=
  flat_map
    (fun cm =>
       let sm := GetContour vectoriser cm in
       if negb (c =? cm)%nat && negb (GetDirection sm) && IsInside sm contour
       then [triangulateContour vectoriser cm offset]
       else [])
    (seq 0 (length vectoriser)).

(** One [Tri] from one [p2t::Triangle]; the casts to [float] are in
    [Rounded.toTri]. *)
Definition toTri (ot : Triangle) : Tri :=
  mkTri (mkVec3 (fst (p0 ot)) (- snd (p0 ot)) 0)
        (mkVec3 (fst (p1 ot)) (- snd (p1 ot)) 0)
        (mkVec3 (fst (p2 ot)) (- snd (p2 ot)) 0).

(** The loop over [c], from contour [c] on, with the triangles pushed so far;
    [None] when a triangulation throws.  The cast of the offset to [float]
    is in [Rounded.contourLoop]. *)
Fixpoint contourLoop (vectoriser : list Contour) (offset : Q) (cs : list nat)
    (trianglesLetter : list Tri) : option (list Tri) :=
  match cs with
  | [] => Some trianglesLetter
  | c :: rest =>
      let contour := GetContour vectoriser c in
      if GetDirection contour then
        let polyline := triangulateContour vectoriser c offset in
        match CDT_Triangulate polyline (holesOf vectoriser c contour offset) with
        | Some ts =>
            contourLoop vectoriser offset rest (trianglesLetter ++ map toTri ts)
        | None => None
        end
      else contourLoop vectoriser offset rest trianglesLetter
  end.

(** [offset += kerning.x >> 6] under its guard. *)
Definition kerned (face : FT_FaceRec) (prev cur : FT_UInt) (offset : Q) : Q :=
  if FT_HAS_KERNING face && negb (prev =? 0)%Z then
    let kerning := FT_Get_Kerning face prev cur FT_KERNING_DEFAULT in
    offset + inject_Z (Z.shiftr (FT_Vector.x kerning) 6)
  else offset.

(** The two-armed [if] on [prev_rsb_delta - face->glyph->lsb_delta]. *)
Definition hinted (prev_rsb lsb : FT_Pos) (offset : Q) : Q :=
  if (32 <=? prev_rsb - lsb)%Z then offset - 1
  else if (prev_rsb - lsb <? -32)%Z then offset + 1
  else offset.

(** The result is the pair of [outTriangles] and the returned offset.  The
    [Vectoriser] takes [static_cast<unsigned short>(bezierSteps)]. *)
Definition addOneCharacter (ch : ascii) (bezierSteps : Z) (offset : Q)
    : M (GlyphRun * Q) :=
  w <- get ;;
  let cur := FT_Get_Char_Index (mFace w) ch in
  set_curCharIndex cur ;;;
  let loaded := FT_Load_Glyph (mFace w) cur FT_LOAD_DEFAULT in
  let face := snd loaded in
  set_mFace face ;;;
  report (fst loaded) ("FT_Load_Glyph failed" ++ newline) ;;;
  g <- match FT_Get_Glyph (glyph face) with
       | Some g => ret g
       | None => printf ("FT_Get_Glyph failed" ++ newline) ;;; undefined
       end ;;
  (if is_outline (format g) then ret tt
   else printf ("Invalid Glyph Format" ++ newline) ;;; exit 0%Z) ;;;
  let offset1 := kerned face (prevCharIndex w) cur offset in
  let offset2 := hinted (prev_rsb_delta w) (lsb_delta (glyph face)) offset1 in
  set_prev_rsb_delta (rsb_delta (glyph face)) ;;;
  let vectoriser := Vectoriser_new (glyph face) (bezierSteps mod 65536)%Z in
  trianglesLetter <-
    match contourLoop vectoriser offset2 (seq 0 (length vectoriser)) [] with
    | Some ts => ret ts
    | None => throw
    end ;;
  set_prevCharIndex cur ;;;
  let chSize := inject_Z (Z.shiftr (FT_Vector.x (advance (glyph face))) 6) in
  ret (trianglesLetter, offset2 + chSize).

(** ** [rasterizeText] *)

(** The [for] loop over the bytes of the text: the letters still to come,
    the offset, and [trianglesPerLetter] so far. *)
Fixpoint letterLoop (text : list ascii) (bezierSteps : Z) (offset : Q)
    (trianglesPerLetter : TextMesh) : M (TextMesh * Q) :=
  match text with
  | [] => ret (trianglesPerLetter, offset)
  | ch :: rest =>
      r <- addOneCharacter ch bezierSteps offset ;;
      letterLoop rest bezierSteps (snd r) (trianglesPerLetter ++ [fst r])
  end.

(** [fontHeight << 6] on a 64-bit [size_t], cast to the signed [FT_F26Dot6]. *)
Definition charSize (fontHeight : Z) : Z :=
  let u := (Z.shiftl fontHeight 6 mod 2 ^ 64)%Z in
  if (u <? 2 ^ 63)%Z then u else (u - 2 ^ 64)%Z.

(** The face after [FT_Set_Char_Size]; its error code is dropped. *)
Definition sizedFace (face : FT_FaceRec) (fontHeight : Z) : FT_FaceRec :=
  let size := charSize fontHeight in
  snd (FT_Set_Char_Size face size size 96 96).

Definition rasterizeText (textString : string) (fontHeight bezierSteps : Z)
    : M TextMesh :=
  w <- get ;;
  set_mFace (sizedFace (mFace w) fontHeight) ;;;
  r <- letterLoop (list_ascii_of_string textString) bezierSteps 0 [] ;;
  ret (outlinePostprocess (fst r)).

(** ** What one call of [addOneCharacter] reads and leaves

    The values the call of [addOneCharacter] for the character [ch] works
    with when it starts in the world [w]. *)

Definition charIndex (w : World) (ch : ascii) : FT_UInt :=
  FT_Get_Char_Index (mFace w) ch.

Definition loadError (w : World) (ch : ascii) : FT_Error :=
  fst (FT_Load_Glyph (mFace w) (charIndex w ch) FT_LOAD_DEFAULT).

Definition loadedFace (w : World) (ch : ascii) : FT_FaceRec :=
  snd (FT_Load_Glyph (mFace w) (charIndex w ch) FT_LOAD_DEFAULT).

(** [face->glyph] after [FT_Load_Glyph]. *)
Definition loadedGlyph (w : World) (ch : ascii) : FT_GlyphSlotRec :=
  glyph (loadedFace w ch).

(** The offset the contours of [ch] are placed at: the incoming offset
    after the kerning and the hinting steps. *)
Definition penPosition (w : World) (ch : ascii) (offset : Q) : Q :=
  hinted (prev_rsb_delta w) (lsb_delta (loadedGlyph w ch))
         (kerned (loadedFace w ch) (prevCharIndex w) (charIndex w ch) offset).

(** [chSize] *)
Definition advanceWidth (w : World) (ch : ascii) : Q :=
  inject_Z (Z.shiftr (FT_Vector.x (advance (loadedGlyph w ch))) 6).

(** The contours of [new Vectoriser(face->glyph, bezierSteps)]. *)
Definition contoursOf (w : World) (ch : ascii) (bezierSteps : Z)
    : list Contour :=
  Vectoriser_new (loadedGlyph w ch) (bezierSteps mod 65536)%Z.

(** The world a call that returns leaves behind. *)
Definition worldAfter (w : World) (ch : ascii) : World :=
  mkWorld (loadedFace w ch) (charIndex w ch) (charIndex w ch)
          (rsb_delta (loadedGlyph w ch))
          (if (loadError w ch =? 0)%Z then stdout w
           else stdout w ++ [("FT_Load_Glyph failed" ++ newline)%string]).

(** The world in which the loop over the letters starts. *)
Definition sizedWorld (w : World) (fontHeight : Z) : World :=
  with_mFace (sizedFace (mFace w) fontHeight) w.

End Rasterizer.

Arguments Returned {FT A} v w.
Arguments Threw {FT A} w.
Arguments Exited {FT A} status w.
Arguments Undefined {FT A} w.

(** The calls the loop over [c] makes to the triangulator: for each contour
    with the direction flag set, its polyline and the polylines of its
    holes. *)
Definition cdtInputs {VE : Outliner} (vectoriser : list Contour) (offset : Q)
    (cs : list nat) : list (list Point * list (list Point)) :=
  flat_map
    (fun c =>
       let contour := GetContour vectoriser c in
       if GetDirection contour
       then [(triangulateContour vectoriser c offset,
              holesOf vectoriser c contour offset)]
       else [])
    cs.

(** ** A sample font engine

    A small instance of the three interfaces, used to run the rasterizer on
    concrete texts: a font is a character map, a glyph table and a kerning
    table; its glyphs are polygons (no curves), a contour is clockwise when
    its signed area is negative, and containment is containment of bounding
    boxes.  The sample triangulator fans a polygon out from its first point
    and does not look at the holes. *)

Module Sample.

Local Open Scope Z_scope.

Record Font : Type := mkFont {
  charmap : list (ascii * FT_UInt);
  glyphs : list (FT_UInt * FT_GlyphSlotRec);
  kerning_pairs : list ((FT_UInt * FT_UInt) * FT_Pos);
  has_kerning : bool
}.

Record Face : Type := mkFace {
  font : Font;
  char_size : Z;
  slot : FT_GlyphSlotRec
}.

Definition emptySlot : FT_GlyphSlotRec :=
  mkSlot FT_GLYPH_FORMAT_NONE (FT_Vector.mk 0 0) 0%Z 0%Z (mkOutline 0 [] []).

Fixpoint lookup {A B : Type} (eqb : A -> A -> bool) (k : A)
    (l : list (A * B)) : option B :=
  match l with
  | [] => None
  | (k', v) :: r => if eqb k k' then Some v else lookup eqb k r
  end.

Definition pair_eqb (p q : FT_UInt * FT_UInt) : bool :=
  ((fst p =? fst q) && (snd p =? snd q))%Z.

Definition get_char_index (f : Face) (ch : ascii) : FT_UInt :=
  match lookup Ascii.eqb ch (charmap (font f)) with
  | Some i => i
  | None => 0%Z
  end.

Definition load_glyph (f : Face) (i : FT_UInt) (flags : Z)
    : FT_Error * Face :=
  match lookup Z.eqb i (glyphs (font f)) with
  | Some s => (0%Z, mkFace (font f) (char_size f) s)
  | None => (16%Z, mkFace (font f) (char_size f) emptySlot)
  end.

Definition get_glyph (s : FT_GlyphSlotRec) : option FT_GlyphRec :=
  match slot_format s with
  | FT_GLYPH_FORMAT_OUTLINE => Some (mkGlyph FT_GLYPH_FORMAT_OUTLINE)
  | FT_GLYPH_FORMAT_BITMAP => Some (mkGlyph FT_GLYPH_FORMAT_BITMAP)
  | _ => None
  end.

Definition get_kerning (f : Face) (l r : FT_UInt) (mode : Z) : FT_Vector.t :=
  match lookup pair_eqb (l, r) (kerning_pairs (font f)) with
  | Some k => FT_Vector.mk k 0
  | None => FT_Vector.mk 0 0
  end.

Definition freetype : FreeType := {|
  FT_FaceRec := Face;
  glyph := slot;
  FT_HAS_KERNING := fun f => has_kerning (font f);
  FT_Set_Char_Size := fun f w h _ _ => (0%Z, mkFace (font f) w (slot f));
  FT_Get_Char_Index := get_char_index;
  FT_Load_Glyph := load_glyph;
  FT_Get_Glyph := get_glyph;
  FT_Get_Kerning := get_kerning
|}.

(** The points of the contours, cut at the last-point indices. *)
Fixpoint cut (ends : list nat) (start : nat) (pts : list FT_Vector.t)
    : list (list FT_Vector.t) :=
  match ends with
  | [] => []
  | e :: r => firstn (S e - start)%nat (skipn start pts) :: cut r (S e) pts
  end.

Definition toQ (p : FT_Vector.t) : Q * Q :=
  (inject_Z (FT_Vector.x p), inject_Z (FT_Vector.y p)).

(** Twice the signed area of a closed polyline. *)
Fixpoint shoelace (first : Q * Q) (pts : list (Q * Q)) : Q :=
  match pts with
  | [] => 0%Q
  | p :: r =>
      let q := match r with [] => first | q :: _ => q end in
      ((fst p * snd q - fst q * snd p) + shoelace first r)%Q
  end.

Definition clockwise (pts : list (Q * Q)) : bool :=
  match pts with
  | [] => false
  | p :: _ => negb (Qle_bool 0 (shoelace p pts))
  end.

Definition vectorise (s : FT_GlyphSlotRec) (steps : Z) : list Contour :=
  map (fun ps => let qs := map toQ ps in mkContour qs (clockwise qs))
      (cut (contours (outline s)) 0 (points (outline s))).

Definition Qltb (p q : Q) : bool := negb (Qle_bool q p).

(** Every point of [sm] lies strictly inside the bounding box of [big]. *)
Definition inside (sm big : Contour) : bool :=
  match GetPoints big with
  | [] => false
  | b0 :: bs =>
      let minx := fold_left (fun m p => if Qltb (fst p) m then fst p else m) bs (fst b0) in
      let maxx := fold_left (fun m p => if Qltb m (fst p) then fst p else m) bs (fst b0) in
      let miny := fold_left (fun m p => if Qltb (snd p) m then snd p else m) bs (snd b0) in
      let maxy := fold_left (fun m p => if Qltb m (snd p) then snd p else m) bs (snd b0) in
      forallb (fun p => Qltb minx (fst p) && Qltb (fst p) maxx &&
                        Qltb miny (snd p) && Qltb (snd p) maxy)
              (GetPoints sm)
  end.

Definition outliner : Outliner := {|
  Vectoriser_new := vectorise;
  IsInside := inside
|}.

Fixpoint fan (apex : Point) (pts : list Point) : list Triangle :=
  match pts with
  | p :: ((q :: _) as r) => mkTriangle apex p q :: fan apex r
  | _ => []
  end.

Definition triangulate (polyline : list Point) (holes : list (list Point))
    : option (list Triangle) :=
  match polyline with
  | apex :: ((_ :: _ :: _) as r) => Some (fan apex r)
  | _ => None
  end.

Definition poly2tri : Poly2Tri := {| CDT_Triangulate := triangulate |}.

Definition pt (px py : Z) : FT_Vector.t := FT_Vector.mk px py.

Definition outlineGlyph (adv lsb rsb : Z) (pts : list FT_Vector.t)
    (ends : list nat) : FT_GlyphSlotRec :=
  mkSlot FT_GLYPH_FORMAT_OUTLINE (FT_Vector.mk adv 0) lsb rsb
         (mkOutline (Z.of_nat (length ends)) pts ends).

(** Coordinates are in 1/64 unit.  Glyph 0 is the missing glyph. *)
Definition glyph_notdef := outlineGlyph 640 0 0 [] [].
Definition glyph_A := outlineGlyph 704 (-16) 0
  [pt 0 0; pt 320 640; pt 640 0] [2%nat].
Definition glyph_V := outlineGlyph 704 0 20
  [pt 0 640; pt 640 640; pt 320 0] [2%nat].
Definition glyph_space (adv : Z) := outlineGlyph adv 0 0 [] [].
(** An underscore: a bar that lies wholly under the baseline. *)
Definition glyph_underscore := outlineGlyph 704 0 0
  [pt 0 (-64); pt 640 (-64); pt 640 (-128); pt 0 (-128)] [3%nat].
(** A ring around a smaller ring: outer, hole, outer, hole. *)
Definition glyph_at := outlineGlyph 1344 0 0
  [pt 0 0; pt 0 1280; pt 1280 1280; pt 1280 0;
   pt 128 128; pt 1152 128; pt 1152 1152; pt 128 1152;
   pt 256 256; pt 256 1024; pt 1024 1024; pt 1024 256;
   pt 384 384; pt 896 384; pt 896 896; pt 384 896]
  [3%nat; 7%nat; 11%nat; 15%nat].
(** A square with a stray contour of two points in it. *)
Definition glyph_stray := outlineGlyph 704 0 0
  [pt 0 0; pt 0 640; pt 640 640; pt 640 0;
   pt 64 64; pt 128 128]
  [3%nat; 5%nat].
(** A glyph whose right side bearing delta is strongly negative. *)
Definition glyph_L := outlineGlyph 704 0 (-20)
  [pt 0 0; pt 0 640; pt 640 0] [2%nat].
Definition glyph_T := outlineGlyph 704 16 0
  [pt 0 640; pt 640 640; pt 320 0] [2%nat].

Definition sampleFont (spaceAdvance : Z) : Font :=
  mkFont
    [("A"%char, 1%Z); ("V"%char, 2%Z); (" "%char, 3%Z); ("_"%char, 4%Z);
     ("@"%char, 5%Z); ("!"%char, 6%Z); ("L"%char, 7%Z); ("T"%char, 8%Z)]
    [(0%Z, glyph_notdef); (1%Z, glyph_A); (2%Z, glyph_V);
     (3%Z, glyph_space spaceAdvance); (4%Z, glyph_underscore);
     (5%Z, glyph_at); (6%Z, glyph_stray); (7%Z, glyph_L); (8%Z, glyph_T)]
    [((1%Z, 2%Z), (-128)%Z); ((2%Z, 1%Z), (-128)%Z)]
    true.

(** A font that has embedded bitmaps only. *)
Definition bitmapFont : Font :=
  mkFont
    [("A"%char, 1%Z)]
    [(0%Z, glyph_notdef);
     (1%Z, mkSlot FT_GLYPH_FORMAT_BITMAP (FT_Vector.mk 704 0) 0%Z 0%Z
                  (mkOutline 0 [] []))]
    []
    false.

Definition open (f : Font) : Face := mkFace f 0%Z emptySlot.

(** The rasterizer over the sample engine. *)
Definition world : Type := @World freetype.
Definition fresh (f : Font) : world := @freshWorld freetype (open f).
Definition rasterize (text : string) (fontHeight bezierSteps : Z) (w : world)
    : @Outcome freetype TextMesh :=
  @rasterizeText freetype outliner poly2tri text fontHeight bezierSteps w.

End Sample.

(** * The rasterizer on IEEE values

    Where the rounding of the floating-point operations bears on a property,
    the functions are modelled again on IEEE 754 values: a [float] is a
    binary32 value, a [double] a binary64 value, both with infinities and
    NaN, and every operation rounds to nearest, ties to even. *)

Module IEEE.

Definition float : Type := SpecFloat.spec_float.
Definition double : Type := SpecFloat.spec_float.

(** A value taken into the format of precision [prec] and exponent bound
    [emax]. *)
Definition cast (prec emax : Z) (v : SpecFloat.spec_float)
    : SpecFloat.spec_float :=
  match v with
  | SpecFloat.S754_finite s m e => SpecFloat.binary_round prec emax s m e
  | _ => v
  end.

(** [static_cast<float>] of a [double], and the promotion of a [float] to
    [double]. *)
Definition to_float (d : double) : float := cast 24 128 d.
Definition to_double (f : float) : double := cast 53 1024 f.

(** A [float] literal with an integer value, and the conversion of an
    integer to [double]. *)
Definition float_of_Z (n : Z) : float :=
  SpecFloat.binary_normalize 24 128 n 0 false.
Definition double_of_Z (n : Z) : double :=
  SpecFloat.binary_normalize 53 1024 n 0 false.

Definition fadd (u v : float) : float := SpecFloat.SFadd 24 128 u v.
Definition fabs (u : float) : float := SpecFloat.SFabs u.
(** [u > v] *)
Definition fgt (u v : float) : bool := SpecFloat.SFltb v u.

Definition dadd (u v : double) : double := SpecFloat.SFadd 53 1024 u v.
Definition dsub (u v : double) : double := SpecFloat.SFsub 53 1024 u v.
Definition ddiv (u v : double) : double := SpecFloat.SFdiv 53 1024 u v.
Definition dopp (u : double) : double := SpecFloat.SFopp u.

(** The number a finite value stands for (0 for the others). *)
Definition value (v : SpecFloat.spec_float) : Q :=
  match v with
  | SpecFloat.S754_finite s m e =>
      (if s then - inject_Z (Zpos m) else inject_Z (Zpos m)) * 2 ^ e
  | _ => 0
  end.

End IEEE.

(** A contour of the exact model, from its points and its flag. *)
Definition exactContour (pts : list (Q * Q)) (direction : bool) : Contour :=
  mkContour pts direction.

Module Rounded.

(** ** [glm::vec3], [Tri] and [outlinePostprocess] *)

Record vec3 : Type := mkVec3 { x : IEEE.float; y : IEEE.float; z : IEEE.float }.

Record Tri : Type := mkTri { a : vec3; b : vec3; c : vec3 }.

Definition GlyphRun : Type := list Tri.
Definition TextMesh : Type := list GlyphRun.

Definition corners (t : Tri) : list vec3 := [a t; b t; c t].

Definition vertices (m : TextMesh) : list vec3 :=
  flat_map corners (List.concat m).

(** [std::numeric_limits<float>::max()] *)
Definition FLT_MAX : IEEE.float := SpecFloat.SFmax_float 24 128.

(** [if(min > v) min = v;] *)
Definition lower (min v : IEEE.float) : IEEE.float :=
  if IEEE.fgt min v then v else min.

Definition lowerTri (min : IEEE.float) (t : Tri) : IEEE.float :=
  lower (lower (lower min (y (a t))) (y (b t))) (y (c t)).

Definition findMin (trianglesPerLetter : TextMesh) : IEEE.float :=
  fold_left (fun min letterTriangles => fold_left lowerTri letterTriangles min)
            trianglesPerLetter FLT_MAX.

(** [v.y += addToZero] *)
Definition raise (addToZero : IEEE.float) (v : vec3) : vec3 :=
  mkVec3 (x v) (IEEE.fadd (y v) addToZero) (z v).

Definition raiseTri (addToZero : IEEE.float) (t : Tri) : Tri :=
  mkTri (raise addToZero (a t)) (raise addToZero (b t)) (raise addToZero (c t)).

Definition outlinePostprocess (trianglesPerLetter : TextMesh) : TextMesh :=
  let min := findMin trianglesPerLetter in
  let addToZero := IEEE.fabs min in
  map (map (raiseTri addToZero)) trianglesPerLetter.

(** ** The Vectoriser and poly2tri, on [double] *)

Definition Point : Type := (IEEE.double * IEEE.double)%type.

Record Triangle : Type := mkTriangle { p0 : Point; p1 : Point; p2 : Point }.

Record Contour : Type := mkContour {
  GetPoints : list (IEEE.double * IEEE.double);
  GetDirection : bool
}.

Class Outliner : Type := {
  Vectoriser_new : FT_GlyphSlotRec -> Z -> list Contour;
  IsInside : Contour -> Contour -> bool
}.

Class Poly2Tri : Type := {
  CDT_Triangulate : list Point -> list (list Point) -> option (list Triangle)
}.

Section Rasterizer.

Context {FT : FreeType} {VE : Outliner} {P2T : Poly2Tri}.

Notation "v <- m ;; k" := (bind m (fun v => k))
  (at level 61, m at next level, right associativity).
Notation "m ;;; k" := (bind m (fun _ => k))
  (at level 61, right associativity).

(** ** [triangulateContour] *)

Definition GetContour (vectoriser : list Contour) (c : nat) : Contour :=
  nth c vectoriser (mkContour [] false).

(** [64.0f], promoted to [double] for the division. *)
Definition sixtyFour : IEEE.double := IEEE.to_double (IEEE.float_of_Z 64).

(** [(d[0] / 64.0f) + offset] and [d[1] / 64.0f], in [double]; [offset] is
    the [float] parameter. *)
Definition triangulateContour (vectoriser : list Contour) (c : nat)
    (offset : IEEE.float) : list Point :=
  let contour := GetContour vectoriser c in
  map (fun d => (IEEE.dadd (IEEE.ddiv (fst d) sixtyFour) (IEEE.to_double offset),
                 IEEE.ddiv (snd d) sixtyFour))
      (GetPoints contour).

(** ** [addOneCharacter] *)

(** The inner loop over [cm]; [offset] is the [double] of the caller, cast
    to [float] for the call. *)
Definition holesOf (vectoriser : list Contour) (c : nat) (contour : Contour)
    (offset : IEEE.double) : list (list Point) :=
  flat_map
    (fun cm =>
       let sm := GetContour vectoriser cm in
       if negb (c =? cm)%nat && negb (GetDirection sm) && IsInside sm contour
       then [triangulateContour vectoriser cm (IEEE.to_float offset)]
       else [])
    (seq 0 (length vectoriser)).

(** One [Tri] from one [p2t::Triangle]: every coordinate goes through
    [static_cast<float>], the y after its negation; z is [0.0f]. *)
Definition toTri (ot : Triangle) : Tri :=
  mkTri (mkVec3 (IEEE.to_float (fst (p0 ot)))
                (IEEE.to_float (IEEE.dopp (snd (p0 ot))))
                (IEEE.float_of_Z 0))
        (mkVec3 (IEEE.to_float (fst (p1 ot)))
                (IEEE.to_float (IEEE.dopp (snd (p1 ot))))
                (IEEE.float_of_Z 0))
        (mkVec3 (IEEE.to_float (fst (p2 ot)))
                (IEEE.to_float (IEEE.dopp (snd (p2 ot))))
                (IEEE.float_of_Z 0)).

Fixpoint contourLoop (vectoriser : list Contour) (offset : IEEE.double)
    (cs : list nat) (trianglesLetter : list Tri) : option (list Tri) :=
  match cs with
  | [] => Some trianglesLetter
  | c :: rest =>
      let contour := GetContour vectoriser c in
      if GetDirection contour then
        let polyline :=
          triangulateContour vectoriser c (IEEE.to_float offset) in
        match CDT_Triangulate polyline (holesOf vectoriser c contour offset) with
        | Some ts =>
            contourLoop vectoriser offset rest (trianglesLetter ++ map toTri ts)
        | None => None
        end
      else contourLoop vectoriser offset rest trianglesLetter
  end.

(** [offset += kerning.x >> 6] under its guard: the shifted [long] becomes a
    [double]. *)
Definition kerned (face : FT_FaceRec) (prev cur : FT_UInt)
    (offset : IEEE.double) : IEEE.double :=
  if FT_HAS_KERNING face && negb (prev =? 0)%Z then
    let kerning := FT_Get_Kerning face prev cur FT_KERNING_DEFAULT in
    IEEE.dadd offset (IEEE.double_of_Z (Z.shiftr (FT_Vector.x kerning) 6))
  else offset.

(** [offset -= 1.0f] and [offset += 1.0f]. *)
Definition hinted (prev_rsb lsb : FT_Pos) (offset : IEEE.double)
    : IEEE.double :=
  if (32 <=? prev_rsb - lsb)%Z
  then IEEE.dsub offset (IEEE.to_double (IEEE.float_of_Z 1))
  else if (prev_rsb - lsb <? -32)%Z
  then IEEE.dadd offset (IEEE.to_double (IEEE.float_of_Z 1))
  else offset.

Definition addOneCharacter (ch : ascii) (bezierSteps : Z)
    (offset : IEEE.double) : M (GlyphRun * IEEE.double) :=
  w <- get ;;
  let cur := FT_Get_Char_Index (mFace w) ch in
  set_curCharIndex cur ;;;
  let loaded := FT_Load_Glyph (mFace w) cur FT_LOAD_DEFAULT in
  let face := snd loaded in
  set_mFace face ;;;
  report (fst loaded) ("FT_Load_Glyph failed" ++ newline) ;;;
  g <- match FT_Get_Glyph (glyph face) with
       | Some g => ret g
       | None => printf ("FT_Get_Glyph failed" ++ newline) ;;; undefined
       end ;;
  (if is_outline (format g) then ret tt
   else printf ("Invalid Glyph Format" ++ newline) ;;; exit 0%Z) ;;;
  let offset1 := kerned face (prevCharIndex w) cur offset in
  let offset2 := hinted (prev_rsb_delta w) (lsb_delta (glyph face)) offset1 in
  set_prev_rsb_delta (rsb_delta (glyph face)) ;;;
  let vectoriser := Vectoriser_new (glyph face) (bezierSteps mod 65536)%Z in
  trianglesLetter <-
    match contourLoop vectoriser offset2 (seq 0 (length vectoriser)) [] with
    | Some ts => ret ts
    | None => throw
    end ;;
  set_prevCharIndex cur ;;;
  let chSize :=
    IEEE.double_of_Z (Z.shiftr (FT_Vector.x (advance (glyph face))) 6) in
  ret (trianglesLetter, IEEE.dadd offset2 chSize).

(** The offset the contours of [ch] are placed at, before its cast to
    [float]. *)
Definition penPosition (w : World) (ch : ascii) (offset : IEEE.double)
    : IEEE.double :=
  hinted (prev_rsb_delta w) (lsb_delta (loadedGlyph w ch))
         (kerned (loadedFace w ch) (prevCharIndex w) (charIndex w ch) offset).

Definition contoursOf (w : World) (ch : ascii) (bezierSteps : Z)
    : list Contour :=
  Vectoriser_new (loadedGlyph w ch) (bezierSteps mod 65536)%Z.

End Rasterizer.

(** ** The sample engine on [double]

    The contours of the sample engine with their points as [double]
    values, and the fan triangulator. *)

Definition exact (contour : Contour) :=
  exactContour (map (fun d => (IEEE.value (fst d), IEEE.value (snd d)))
                    (GetPoints contour))
               (GetDirection contour).

Definition vectorise (s : FT_GlyphSlotRec) (steps : Z) : list Contour :=
  map (fun ps =>
         mkContour
           (map (fun q => (IEEE.double_of_Z (FT_Vector.x q),
                           IEEE.double_of_Z (FT_Vector.y q))) ps)
           (Sample.clockwise (map Sample.toQ ps)))
      (Sample.cut (contours (outline s)) 0 (points (outline s))).

Definition outliner : Outliner := {|
  Vectoriser_new := vectorise;
  IsInside := fun sm big => Sample.inside (exact sm) (exact big)
|}.

Fixpoint fan (apex : Point) (pts : list Point) : list Triangle :=
  match pts with
  | p :: ((q :: _) as r) => mkTriangle apex p q :: fan apex r
  | _ => []
  end.

Definition poly2tri : Poly2Tri := {|
  CDT_Triangulate := fun polyline holes =>
    match polyline with
    | apex :: ((_ :: _ :: _) as r) => Some (fan apex r)
    | _ => None
    end
|}.

(** The floats -0.3f, 0.1f and 0.3f. *)
Definition minus_three_tenths : IEEE.float :=
  SpecFloat.S754_finite true 10066330 (-25).
Definition one_tenth : IEEE.float :=
  SpecFloat.S754_finite false 13421773 (-27).
Definition three_tenths : IEEE.float :=
  SpecFloat.S754_finite false 10066330 (-25).

(** One triangle with its corners at the heights -0.3f, 0.1f and 0. *)
Definition sampleMesh : TextMesh :=
  [[mkTri (mkVec3 (IEEE.float_of_Z 0) minus_three_tenths (IEEE.float_of_Z 0))
          (mkVec3 (IEEE.float_of_Z 4) one_tenth (IEEE.float_of_Z 0))
          (mkVec3 (IEEE.float_of_Z 2) (IEEE.float_of_Z 0) (IEEE.float_of_Z 0))]].

(** [shifted k v v']: [v'] is [v] with the float [k] added to its y in
    single precision, nothing else changed. *)
Definition shifted (k : IEEE.float) (v v' : vec3) : Prop :=
  x v' = x v /\ y v' = IEEE.fadd (y v) k /\ z v' = z v.

Definition shiftedTri (k : IEEE.float) (t t' : Tri) : Prop :=
  shifted k (a t) (a t') /\ shifted k (b t) (b t') /\ shifted k (c t) (c t').

End Rounded.

(** * The progress record (src/geometry/GeometryProgress.h) *)

(** The seven [std::atomic<float>] members are rationals; a store replaces
    the value. *)
Module GeometryProgress.

Record t : Type := mk {
  importRenderPercentage : Q;
  importComputePercentage : Q;
  buffersPercentage : Q;
  aabbTreePercentage : Q;
  polyhedronPercentage : Q;
  createScenePercentage : Q;
  exportFilePercentage : Q
}.

(** The record as its member initialisers make it. *)
Definition constructed : t :=
  mk (-1) (-1) (-1) (-1) (-1) (-1) (-1).

Definition resetLoad (p : t) : t :=
  mk (-1) (-1) (-1) (-1) (-1)
     (createScenePercentage p) (exportFilePercentage p).

Definition resetSave (p : t) : t :=
  mk (importRenderPercentage p) (importComputePercentage p)
     (buffersPercentage p) (aabbTreePercentage p) (polyhedronPercentage p)
     (-1) (-1).

End GeometryProgress.

(** * The application shell (src/ui/MainApplication.cpp)

    The members the handlers read and write, in two groups: the focus and
    drawing state, and the geometry and file state.  The handlers of one
    group do not touch the members of the other.  The window system, the
    thread pool and the queue of [dispatchAsync] are not part of the
    repository: the Win32 calls are an interface, a job of the pool is the
    data its lambda captured, and so is a dispatched closure. *)
Module MainApplication.

Local Open Scope Z_scope.

(** ** The constructor *)

(** The argument of [mThreadPool]: [std::max<size_t>(3, n) - 1] on a 64-bit
    [size_t], for [n] the result of
    [std::thread::hardware_concurrency()]. *)
Definition threadPoolSize (hardware_concurrency : Z) : Z :=
  (Z.max 3 hardware_concurrency - 1) mod 2 ^ 64.

(** ** Focus and drawing *)

Definition HWND : Type := Z.

Record RECT : Type := mkRECT { left : Z; top : Z; right : Z; bottom : Z }.

(** The Win32 calls of [isWindowObscured]; [GetWindowRect] gives [None]
    when it returns 0. *)
Record Desktop : Type := mkDesktop {
  IsIconic : HWND -> bool;
  GetWindowRect : HWND -> option RECT;
  WindowFromPoint : Z -> Z -> HWND
}.

(** A [LONG] is a 32-bit integer in two's complement: the result of an
    operation on [LONG] is taken back into that range. *)
Definition LONG (n : Z) : Z := (n + 2 ^ 31) mod 2 ^ 32 - 2 ^ 31.

(** [msw] tells whether [CINDER_MSW_DESKTOP] is defined; [wnd] is the
    window of the application.  [/] on [LONG] truncates. *)
Definition isWindowObscured (msw : bool) (os : Desktop) (wnd : HWND) : bool :=
  if msw then
    if IsIconic os wnd then true
    else
      match GetWindowRect os wnd with
      | Some windowRect =>
          let isObscuredAtDiagonal := true in
          let wndAtCheckpoint :=
            WindowFromPoint os (left windowRect) (top windowRect) in
          let isObscuredAtDiagonal :=
            isObscuredAtDiagonal && negb (wndAtCheckpoint =? wnd) in
          let wndAtCheckpoint :=
            WindowFromPoint os
              (LONG (left windowRect +
                     Z.quot (LONG (right windowRect - left windowRect)) 2))
              (LONG (top windowRect +
                     Z.quot (LONG (bottom windowRect - top windowRect)) 2)) in
          let isObscuredAtDiagonal :=
            isObscuredAtDiagonal && negb (wndAtCheckpoint =? wnd) in
          let wndAtCheckpoint :=
            WindowFromPoint os (LONG (right windowRect - 1))
                               (LONG (bottom windowRect - 1)) in
          let isObscuredAtDiagonal :=
            isObscuredAtDiagonal && negb (wndAtCheckpoint =? wnd) in
          if isObscuredAtDiagonal then true else false
      | None => false
      end
  else false.

(** [mIsFocused], [mShouldSkipDraw], [mShowDemoWindow] and the frame rate
    of the application: [None] after [disableFrameRate()]. *)
Record Focus : Type := mkFocus {
  mIsFocused : bool;
  mShouldSkipDraw : bool;
  mShowDemoWindow : bool;
  frameRate : option Q
}.

(** [elapsedFrames] is the result of [getElapsedFrames()]. *)
Definition update (msw : bool) (os : Desktop) (wnd : HWND)
    (elapsedFrames : Z) (st : Focus) : Focus :=
  if msw then
    if negb (mIsFocused st) then
      if (mShouldSkipDraw st && (elapsedFrames mod 4 =? 0)) ||
         (negb (mShouldSkipDraw st) && (elapsedFrames mod 48 =? 0))
      then
        if isWindowObscured msw os wnd
        then mkFocus (mIsFocused st) true (mShowDemoWindow st) (Some 2%Q)
        else st
      else st
    else st
  else st.

Inductive DrawCall : Type :=
| gl_clear (hex : Z)
| ImGui_ShowDemoWindow
| mToolbar_draw
| mSidePane_draw
| mModelView_draw
| mProgressIndicator_draw.

(** The calls [draw] makes, in order. *)
Definition draw (st : Focus) : list DrawCall :=
  if mShouldSkipDraw st then []
  else
    gl_clear 16579836 ::
    (if mShowDemoWindow st then [ImGui_ShowDemoWindow] else []) ++
    [mToolbar_draw; mSidePane_draw; mModelView_draw; mProgressIndicator_draw].

Definition willResignActive (st : Focus) : Focus :=
  mkFocus false (mShouldSkipDraw st) (mShowDemoWindow st) (Some 24%Q).

Definition didBecomeActive (st : Focus) : Focus :=
  mkFocus true false (mShowDemoWindow st) None.

(** What the application loop calls on the focus state: [update] once per
    frame, and the two signal handlers. *)
Inductive FocusEvent : Type :=
| Update (os : Desktop) (elapsedFrames : Z)
| WillResignActive
| DidBecomeActive.

Definition focusStep (msw : bool) (wnd : HWND) (st : Focus)
    (ev : FocusEvent) : Focus :=
  match ev with
  | Update os elapsedFrames => update msw os wnd elapsedFrames st
  | WillResignActive => willResignActive st
  | DidBecomeActive => didBecomeActive st
  end.

(** ** Geometry and files *)

(** A [Geometry] object is the number it was the n-th to be made with
    [std::make_shared<Geometry>()]; a [shared_ptr] is [None] when null. *)
Definition GeometryPtr : Type := option nat.

(** The lambdas handed to [mThreadPool.enqueue], with what they captured. *)
Inductive Job : Type :=
| LoadJob (geometry : nat) (path : string)
| ExportJob (filePath fileName fileType : string).

(** The lambdas handed to [dispatchAsync], with what they captured. *)
Inductive Closure : Type :=
| LoadDone (path : string)
| ExportDone.

(** The members; [made] counts the [Geometry] objects made so far,
    [mThreadPool] holds the jobs enqueued and not yet finished,
    [dispatched] the closures not yet run, both oldest first, and
    [onNewGeometryLoaded] the tools that were notified, in order. *)
Record Files : Type := mkFiles {
  mGeometry : GeometryPtr;
  mGeometryInProgress : GeometryPtr;
  mGeometryFileName : string;
  mCommandManager : GeometryPtr;
  windowTitle : string;
  mProgressIndicator : GeometryPtr;
  mTools : list nat;
  made : nat;
  mThreadPool : list Job;
  dispatched : list Closure;
  onNewGeometryLoaded : list nat
}.

Definition openFile (path : string) (st : Files) : Files :=
  match mGeometryInProgress st with
  | Some _ => st
  | None =>
      let geometry := made st in
      mkFiles (mGeometry st) (Some geometry) (mGeometryFileName st)
              (mCommandManager st) (windowTitle st) (Some geometry)
              (mTools st) (S (made st))
              (mThreadPool st ++ [LoadJob geometry path])
              (dispatched st)
              (onNewGeometryLoaded st ++ mTools st)
  end.

Definition fileDrop (files : list string) (st : Files) : Files :=
  match mGeometry st, files with
  | None, _ => st
  | _, [] => st
  | Some _, file0 :: _ => openFile file0 st
  end.

Definition saveFile (filePath fileName fileType : string) (st : Files)
    : Files :=
  match mGeometry st with
  | None => st
  | Some _ =>
      mkFiles (mGeometry st) (mGeometryInProgress st) (mGeometryFileName st)
              (mCommandManager st) (windowTitle st) (mGeometry st)
              (mTools st) (made st)
              (mThreadPool st ++ [ExportJob filePath fileName fileType])
              (dispatched st) (onNewGeometryLoaded st)
  end.

(** The pool without its job number [i]. *)
Definition without {A : Type} (i : nat) (l : list A) : list A :=
  firstn i l ++ skipn (S i) l.

(** A worker runs job number [i] of the pool to its end: the work on the
    geometry, then the [dispatchAsync].  [None] when the export job goes
    through a null [mGeometry]; nothing happens when there is no such
    job. *)
Definition finishJob (i : nat) (st : Files) : option Files :=
  match nth_error (mThreadPool st) i with
  | None => Some st
  | Some (LoadJob geometry path) =>
      Some (mkFiles (mGeometry st) (mGeometryInProgress st)
                    (mGeometryFileName st) (mCommandManager st)
                    (windowTitle st) (mProgressIndicator st) (mTools st)
                    (made st) (without i (mThreadPool st))
                    (dispatched st ++ [LoadDone path])
                    (onNewGeometryLoaded st))
  | Some (ExportJob filePath fileName fileType) =>
      match mGeometry st with
      | None => None
      | Some _ =>
          Some (mkFiles (mGeometry st) (mGeometryInProgress st)
                        (mGeometryFileName st) (mCommandManager st)
                        (windowTitle st) (mProgressIndicator st) (mTools st)
                        (made st) (without i (mThreadPool st))
                        (dispatched st ++ [ExportDone])
                        (onNewGeometryLoaded st))
      end
  end.

(** The main loop runs the oldest dispatched closure.  [None] when the
    closure of [openFile] builds the command manager from a null
    [mGeometry]; nothing happens when no closure waits. *)
Definition runDispatched (st : Files) : option Files :=
  match dispatched st with
  | [] => Some st
  | LoadDone path :: rest =>
      match mGeometryInProgress st with
      | None => None
      | Some geometry =>
          Some (mkFiles (Some geometry) None path (Some geometry)
                        ("Pepr3D - " ++ path)%string None (mTools st)
                        (made st) (mThreadPool st) rest
                        (onNewGeometryLoaded st))
      end
  | ExportDone :: rest =>
      Some (mkFiles (mGeometry st) (mGeometryInProgress st)
                    (mGeometryFileName st) (mCommandManager st)
                    (windowTitle st) None (mTools st) (made st)
                    (mThreadPool st) rest (onNewGeometryLoaded st))
  end.

(** What happens to the file state, one thing at a time: a call of a
    handler on the main thread, a worker finishing a job, the main loop
    running a closure. *)
Inductive FileEvent : Type :=
| FileDrop (files : list string)
| OpenFile (path : string)
| SaveFile (filePath fileName fileType : string)
| FinishJob (i : nat)
| RunDispatched.

Definition fileStep (st : Files) (ev : FileEvent) : option Files :=
  match ev with
  | FileDrop files => Some (fileDrop files st)
  | OpenFile path => Some (openFile path st)
  | SaveFile filePath fileName fileType =>
      Some (saveFile filePath fileName fileType st)
  | FinishJob i => finishJob i st
  | RunDispatched => runDispatched st
  end.

Fixpoint fileRun (st : Files) (evs : list FileEvent) : option Files :=
  match evs with
  | [] => Some st
  | ev :: rest =>
      match fileStep st ev with
      | Some st' => fileRun st' rest
      | None => None
      end
  end.

Definition isLoadJob (j : Job) : bool :=
  match j with LoadJob _ _ => true | ExportJob _ _ _ => false end.

Definition isLoadDone (c : Closure) : bool :=
  match c with LoadDone _ => true | ExportDone => false end.

(** No load is under way. *)
Definition idle (st : Files) : Prop :=
  mGeometryInProgress st = None /\
  filter isLoadJob (mThreadPool st) = [] /\
  filter isLoadDone (dispatched st) = [].

(** The load of [path] into [geometry] is under way: its job is the one
    load job of the pool, or its closure the one load closure that
    waits. *)
Definition loading (geometry : nat) (path : string) (st : Files) : Prop :=
  mGeometryInProgress st = Some geometry /\
  ((filter isLoadJob (mThreadPool st) = [LoadJob geometry path] /\
    filter isLoadDone (dispatched st) = []) \/
   (filter isLoadJob (mThreadPool st) = [] /\
    filter isLoadDone (dispatched st) = [LoadDone path])).

(** An export job waits only when there is a geometry to export. *)
Definition exportsHaveGeometry (st : Files) : Prop :=
  (exists j, In j (mThreadPool st) /\ isLoadJob j = false) ->
  mGeometry st <> None.

Definition consistent (st : Files) : Prop :=
  (idle st \/ exists geometry path, loading geometry path st) /\
  exportsHaveGeometry st.

(** A sample state: the application with the default cube and two
    tools. *)
Definition sampleFiles : Files :=
  mkFiles (Some 0%nat) None ""%string (Some 0%nat)
          "Pepr3D - Unsaved project"%string None [1%nat; 2%nat] 1 [] [] [].

(** The load of [path] into [geometry] has been taken over by the
    application. *)
Definition installed (geometry : nat) (path : string) (st : Files) : Prop :=
  mGeometry st = Some geometry /\
  mGeometryInProgress st = None /\
  mGeometryFileName st = path /\
  mCommandManager st = Some geometry /\
  windowTitle st = ("Pepr3D - " ++ path)%string /\
  mProgressIndicator st = None /\
  idle st.

End MainApplication.

(** ** Vocabulary of the properties *)

Local Open Scope Q_scope.

(** [cm] is a hole of the triangulation of contour [c]: the test of the
    inner loop of [addOneCharacter]. *)
Definition isHoleOf {VE : Outliner} (vectoriser : list Contour) (c cm : nat)
    : bool :=
  negb (c =? cm)%nat && negb (GetDirection (GetContour vectoriser cm)) &&
  IsInside (GetContour vectoriser cm) (GetContour vectoriser c).

(** The triangulator accepted every call of the list, with these results. *)
Definition triangulated {P2T : Poly2Tri}
    (calls : list (list Point * list (list Point)))
    (results : list (list Triangle)) : Prop :=
  Forall2 (fun call ts => CDT_Triangulate (fst call) (snd call) = Some ts)
          calls results.

(** An error reaches the caller of a call: an exception leaves the call, or
    the process ends with a status other than 0. *)
Definition surfacesError {FT : FreeType} {A : Type} (o : Outcome A) : Prop :=
  match o with
  | Threw _ => True
  | Exited status _ => status <> 0%Z
  | Returned _ _ | Undefined _ => False
  end.

(** What the kerning step and the hinting step of the call for [ch] add to
    the offset. *)
Definition kerningAdjust {FT : FreeType} (w : World) (ch : ascii) : Q :=
  kerned (loadedFace w ch) (prevCharIndex w) (charIndex w ch) 0.

Definition hintingNudge {FT : FreeType} (w : World) (ch : ascii) : Q :=
  hinted (prev_rsb_delta w) (lsb_delta (loadedGlyph w ch)) 0.

(** The sum, over the letters of a text, of kerning adjustment, hinting
    nudge and advance width, each letter in the world the one before it
    left. *)
Fixpoint totalAdvance {FT : FreeType} (text : list ascii) (w : World) : Q :=
  match text with
  | [] => 0
  | ch :: rest =>
      kerningAdjust w ch + hintingNudge w ch + advanceWidth w ch +
      totalAdvance rest (worldAfter w ch)
  end.

(** * Properties *)

(** ** The minimum search of [outlinePostprocess] *)

Lemma fold_lowerTri (l : list Tri) (init : Q) :
  fold_left lowerTri l init = fold_left lower (map y (flat_map corners l)) init.
Proof.
  revert init; induction l as [|t l IH]; intros init; simpl; [reflexivity|].
  now rewrite IH.
Qed.

Lemma findMin_fold (m : TextMesh) :
  findMin m = fold_left lower (ys m) FLT_MAX.
Proof.
  unfold findMin, ys, vertices. generalize FLT_MAX.
  induction m as [|l m IH]; intros init; simpl; [reflexivity|].
  rewrite IH, fold_lowerTri, flat_map_app, map_app, fold_left_app. reflexivity.
Qed.

Lemma lower_le_l (m v : Q) : lower m v <= m.
Proof.
  unfold lower. destruct (Qle_bool m v) eqn:E; [lra|].
  destruct (Qlt_le_dec v m) as [H|H]; [lra|].
  apply Qle_bool_iff in H. congruence.
Qed.

Lemma lower_le_r (m v : Q) : lower m v <= v.
Proof.
  unfold lower. destruct (Qle_bool m v) eqn:E; [|lra].
  now apply Qle_bool_iff.
Qed.

Lemma fold_lower_le_init (l : list Q) (init : Q) :
  fold_left lower l init <= init.
Proof.
  revert init; induction l as [|v l IH]; intros init; simpl; [lra|].
  eapply Qle_trans; [apply IH | apply lower_le_l].
Qed.

Lemma fold_lower_le (l : list Q) (init v : Q) :
  In v l -> fold_left lower l init <= v.
Proof.
  revert init; induction l as [|u l IH]; intros init; simpl; [tauto|].
  intros [->|H]; [|now apply IH].
  eapply Qle_trans; [apply fold_lower_le_init | apply lower_le_r].
Qed.

Lemma fold_lower_attained (l : list Q) (init : Q) :
  fold_left lower l init = init \/ In (fold_left lower l init) l.
Proof.
  revert init; induction l as [|u l IH]; intros init; simpl; [now left|].
  destruct (IH (lower init u)) as [E|H]; [|now right; right].
  rewrite E. unfold lower.
  destruct (Qle_bool init u); [now left | now right; left].
Qed.

Lemma FLT_MAX_pos : 0 < FLT_MAX.
Proof. reflexivity. Qed.

(** The minimum found is below every vertex. *)
Lemma findMin_le (m : TextMesh) (v : vec3) :
  In v (vertices m) -> findMin m <= y v.
Proof.
  intros H. rewrite findMin_fold. apply fold_lower_le.
  unfold ys. now apply in_map.
Qed.

(** A minimum that is not the initial [FLT_MAX] is the height of a vertex. *)
Lemma findMin_attained (m : TextMesh) :
  findMin m = FLT_MAX \/ exists v, In v (vertices m) /\ y v = findMin m.
Proof.
  rewrite findMin_fold.
  destruct (fold_lower_attained (ys m) FLT_MAX) as [E|H]; [now left|right].
  unfold ys in H. apply in_map_iff in H as (v & E & H). now exists v.
Qed.

(** ** The vertices after [outlinePostprocess] *)

Lemma vertices_raise (k : Q) (m : TextMesh) :
  vertices (map (map (raiseTri k)) m) = map (raise k) (vertices m).
Proof.
  unfold vertices. induction m as [|l m IH]; simpl; [reflexivity|].
  rewrite !flat_map_app, map_app, IH. f_equal.
  clear. induction l as [|t l IH]; simpl; [reflexivity|]. now rewrite IH.
Qed.

Lemma vertices_outlinePostprocess (m : TextMesh) :
  vertices (outlinePostprocess m) = map (raise (Qabs (findMin m))) (vertices m).
Proof. apply vertices_raise. Qed.

(** ** Calls that return *)

Section Calls.

Context {FT : FreeType} {VE : Outliner} {P2T : Poly2Tri}.

Ltac run := unfold bind, get, ret, modify, report, printf, set_mFace,
  set_prevCharIndex, set_curCharIndex, set_prev_rsb_delta, throw, exit,
  undefined in *.

(** A call of [addOneCharacter] returns exactly when the glyph could be
    fetched, is an outline and every triangulation succeeded; what it
    returns and the world it leaves are then as follows. *)
Lemma addOneCharacter_Returned (ch : ascii) (bezierSteps : Z) (offset : Q)
    (w w' : World) (tris : GlyphRun) (offset' : Q) :
  addOneCharacter ch bezierSteps offset w = Returned (tris, offset') w' <->
  (exists g, FT_Get_Glyph (loadedGlyph w ch) = Some g /\
             is_outline (format g) = true) /\
  contourLoop (contoursOf w ch bezierSteps) (penPosition w ch offset)
              (seq 0 (length (contoursOf w ch bezierSteps))) [] = Some tris /\
  offset' = penPosition w ch offset + advanceWidth w ch /\
  w' = worldAfter w ch.
Proof.
  unfold addOneCharacter, contoursOf, penPosition, advanceWidth, worldAfter,
    loadedGlyph, loadedFace, loadError, charIndex.
  run. simpl.
  destruct (FT_Load_Glyph (mFace w) (FT_Get_Char_Index (mFace w) ch)
              FT_LOAD_DEFAULT) as [err face]; simpl.
  destruct (FT_Get_Glyph (glyph face)) as [g|].
  2:{ split; [destruct (err =? 0)%Z; discriminate|].
      intros [(g & Hg & _) _]. discriminate. }
  destruct (is_outline (format g)) eqn:Ho.
  2:{ split; [destruct (err =? 0)%Z; discriminate|].
      intros [(g' & Hg & Ho') _]. congruence. }
  match goal with
  | |- context [contourLoop ?v ?o ?cs []] =>
      destruct (contourLoop v o cs []) as [ts|]
  end.
  - destruct (err =? 0)%Z; simpl; unfold with_prevCharIndex; simpl;
      (split; [intros H; inversion H; subst; eauto 6
              | intros (_ & Hl & -> & ->); inversion Hl; reflexivity]).
  - destruct (err =? 0)%Z; simpl;
      (split; [discriminate | intros (_ & Hl & _); discriminate]).
Qed.

(** The loop over the letters only appends to [trianglesPerLetter]. *)
Lemma letterLoop_acc (text : list ascii) (bezierSteps : Z) (offset : Q)
    (acc : TextMesh) (w : World) :
  letterLoop text bezierSteps offset acc w =
  match letterLoop text bezierSteps offset [] w with
  | Returned r w' => Returned (acc ++ fst r, snd r) w'
  | Threw w' => Threw w'
  | Exited st w' => Exited st w'
  | Undefined w' => Undefined w'
  end.
Proof.
  revert offset acc w. induction text as [|ch rest IH]; intros offset acc w.
  - simpl. unfold ret. simpl. now rewrite app_nil_r.
  - simpl. unfold bind.
    destruct (addOneCharacter ch bezierSteps offset w) as [r w1|w1|st w1|w1];
      try reflexivity.
    rewrite (IH (snd r) (acc ++ [fst r]) w1), (IH (snd r) [fst r] w1).
    destruct (letterLoop rest bezierSteps (snd r) [] w1) as [q w2|w2|st w2|w2];
      try reflexivity.
    simpl. now rewrite <- app_assoc.
Qed.

(** One step of the loop, for a text that returns. *)
Lemma letterLoop_cons (ch : ascii) (rest : list ascii) (bezierSteps : Z)
    (offset : Q) (w w' : World) (m : TextMesh) (offset' : Q) :
  letterLoop (ch :: rest) bezierSteps offset [] w = Returned (m, offset') w' <->
  exists tris off1 w1 m',
    addOneCharacter ch bezierSteps offset w = Returned (tris, off1) w1 /\
    letterLoop rest bezierSteps off1 [] w1 = Returned (m', offset') w' /\
    m = tris :: m'.
Proof.
  simpl. unfold bind.
  destruct (addOneCharacter ch bezierSteps offset w) as [[tris off1] w1|w1|st w1|w1].
  2-4: split; [discriminate | intros (? & ? & ? & ? & H & _); discriminate].
  simpl. rewrite letterLoop_acc.
  destruct (letterLoop rest bezierSteps off1 [] w1)
    as [[m' o] w2|w2|st w2|w2] eqn:E.
  2-4: split; [discriminate
              | intros (? & ? & ? & ? & H & H' & _); inversion H; subst;
                rewrite E in H'; discriminate].
  simpl. split.
  - intros H; inversion H; subst. now exists tris, off1, w1, m'.
  - intros (? & ? & ? & ? & H & H' & ->). inversion H; subst.
    rewrite E in H'. inversion H'; subst. reflexivity.
Qed.

(** The loop over a text cut in two. *)
Lemma letterLoop_app (pre post : list ascii) (bezierSteps : Z) (offset : Q)
    (w w' : World) (m : TextMesh) (offset' : Q) :
  letterLoop (pre ++ post) bezierSteps offset [] w = Returned (m, offset') w' <->
  exists m1 off1 w1 m2,
    letterLoop pre bezierSteps offset [] w = Returned (m1, off1) w1 /\
    letterLoop post bezierSteps off1 [] w1 = Returned (m2, offset') w' /\
    m = m1 ++ m2.
Proof.
  revert offset w m. induction pre as [|ch pre IH]; intros offset w m.
  - simpl. unfold ret. split.
    + intros H. now exists [], offset, w, m.
    + intros (? & ? & ? & ? & H & H' & ->). inversion H; subst. exact H'.
  - change ((ch :: pre) ++ post) with (ch :: (pre ++ post)).
    rewrite !letterLoop_cons. split.
    + intros (tris & o1 & w1 & m' & Ha & Hl & ->).
      apply IH in Hl as (m1 & o2 & w2 & m2 & Hp & Hq & ->).
      exists (tris :: m1), o2, w2, m2. repeat split; try assumption.
      apply letterLoop_cons. now exists tris, o1, w1, m1.
    + intros (m1 & o2 & w2 & m2 & Hp & Hq & ->).
      apply letterLoop_cons in Hp as (tris & o1 & w1 & m' & Ha & Hl & ->).
      exists tris, o1, w1, (m' ++ m2). repeat split; try assumption.
      apply IH. now exists m', o2, w2, m2.
Qed.

Lemma letterLoop_length (text : list ascii) (bezierSteps : Z) (offset : Q)
    (w w' : World) (m : TextMesh) (offset' : Q) :
  letterLoop text bezierSteps offset [] w = Returned (m, offset') w' ->
  length m = length text.
Proof.
  revert offset w m. induction text as [|ch rest IH]; intros offset w m.
  - simpl. unfold ret. intros H; inversion H. reflexivity.
  - intros H. apply letterLoop_cons in H as (? & ? & ? & m' & _ & Hl & ->).
    simpl. f_equal. eapply IH, Hl.
Qed.

(** [rasterizeText] returns the mesh of the loop over the letters, passed
    through [outlinePostprocess]; the final offset is not part of it. *)
Lemma rasterizeText_Returned (text : string) (fontHeight bezierSteps : Z)
    (w w' : World) (mesh : TextMesh) :
  rasterizeText text fontHeight bezierSteps w = Returned mesh w' <->
  exists lm offset,
    letterLoop (list_ascii_of_string text) bezierSteps 0 []
               (sizedWorld w fontHeight) = Returned (lm, offset) w' /\
    mesh = outlinePostprocess lm.
Proof.
  unfold rasterizeText, sizedWorld. run. simpl.
  destruct (letterLoop _ _ _ _ _) as [[lm o] w1|w1|st w1|w1]; simpl.
  2-4: split; [discriminate | intros (? & ? & H & _); discriminate].
  split.
  - intros H; inversion H; subst. now exists lm, o.
  - intros (? & ? & H & ->). inversion H; subst. reflexivity.
Qed.

End Calls.

(** ** The normalization, property by property *)

Lemma raise_nonneg (m : TextMesh) (v : vec3) :
  In v (vertices m) -> 0 <= y (raise (Qabs (findMin m)) v).
Proof.
  intros H. apply findMin_le in H. simpl.
  destruct (Qlt_le_dec (findMin m) 0) as [N|P].
  - rewrite Qabs_neg by lra. lra.
  - rewrite Qabs_pos by lra. lra.
Qed.

Lemma lowest_raised_to_zero (m : TextMesh) :
  (exists v, In v (vertices m) /\ y v <= 0) ->
  exists v, In v (vertices m) /\ y (raise (Qabs (findMin m)) v) == 0.
Proof.
  intros (u & Hu & Hneg).
  assert (Hmin : findMin m <= 0)
    by (eapply Qle_trans; [apply findMin_le, Hu | exact Hneg]).
  destruct (findMin_attained m) as [E|(v & Hv & E)].
  - pose proof FLT_MAX_pos. rewrite E in Hmin. lra.
  - exists v. split; [exact Hv|]. simpl. rewrite E.
    rewrite Qabs_neg by exact Hmin. lra.
Qed.

(** C1, as amended.  When [rasterizeText] returns, its result is the mesh
    [lm] built by the loop over the letters passed through
    [outlinePostprocess]; every vertex of the result has a y-coordinate
    at least 0, and when some vertex of [lm] has a y-coordinate at most 0
    the result has a vertex whose y-coordinate is exactly 0, which is then
    the minimum. *)
Theorem rasterizeText_nonnegative {FT : FreeType} {VE : Outliner}
    {P2T : Poly2Tri} (text : string) (fontHeight bezierSteps : Z)
    (w w' : World) (mesh : TextMesh) :
  rasterizeText text fontHeight bezierSteps w = Returned mesh w' ->
  exists lm offset,
    letterLoop (list_ascii_of_string text) bezierSteps 0 []
               (sizedWorld w fontHeight) = Returned (lm, offset) w' /\
    mesh = outlinePostprocess lm /\
    (forall v, In v (vertices mesh) -> 0 <= y v) /\
    ((exists v, In v (vertices lm) /\ y v <= 0) ->
     exists v, In v (vertices mesh) /\ y v == 0).
Proof.
  intros H. apply rasterizeText_Returned in H as (lm & offset & Hl & ->).
  exists lm, offset. repeat split; try assumption.
  - intros v Hv. rewrite vertices_outlinePostprocess in Hv.
    apply in_map_iff in Hv as (u & <- & Hu). now apply raise_nonneg.
  - intros Hlow. apply lowest_raised_to_zero in Hlow as (v & Hv & Hz).
    exists (raise (Qabs (findMin lm)) v). split; [|exact Hz].
    rewrite vertices_outlinePostprocess. now apply in_map.
Qed.

(** The text AV in the sample font: the letters stand on the baseline, and
    the normalized mesh has its lowest vertices at height 0. *)
Lemma rasterizeText_nonnegative_witness :
  exists mesh w',
    Sample.rasterize "AV" 12 4 (Sample.fresh (Sample.sampleFont 320))
      = Returned mesh w' /\
    (forall v, In v (vertices mesh) -> 0 <= y v) /\
    exists v, In v (vertices mesh) /\ y v == 0.
Proof.
  eexists. eexists. split; [vm_compute; reflexivity|].
  match goal with
  | |- (forall v, In v (vertices ?m) -> _) /\ _ =>
      destruct (@rasterizeText_nonnegative Sample.freetype Sample.outliner
                  Sample.poly2tri "AV" 12 4
                  (Sample.fresh (Sample.sampleFont 320)) _ m eq_refl)
        as (lm & off & Hl & Hm & Hpos & Hzero)
  end.
  split; [exact Hpos|]. apply Hzero.
  vm_compute in Hl. inversion Hl; subst lm.
  eexists. split; [left; reflexivity|]. vm_compute. discriminate.
Defined.

(** C1, the claim as stated, fails on a text whose glyphs all lie under the
    baseline: for an underscore every vertex is above 0 before the
    normalization, the normalization adds the minimum once more, and the
    lowest vertices of the result are at height 2, not 0. *)
Lemma underscore_minimum_not_zero :
  exists mesh w',
    Sample.rasterize "_" 12 4 (Sample.fresh (Sample.sampleFont 320))
      = Returned mesh w' /\
    vertices mesh <> [] /\
    (forall v, In v (vertices mesh) -> 2 <= y v) /\
    ~ (exists v, In v (vertices mesh) /\ y v == 0).
Proof.
  eexists. eexists. split; [vm_compute; reflexivity|].
  assert (H : forall v,
    In v (vertices
      [[mkTri (mkVec3 (0 # 64) (8192 # 4096) 0) (mkVec3 (640 # 64) (8192 # 4096) 0)
              (mkVec3 (640 # 64) (12288 # 4096) 0);
        mkTri (mkVec3 (0 # 64) (8192 # 4096) 0) (mkVec3 (640 # 64) (12288 # 4096) 0)
              (mkVec3 (0 # 64) (12288 # 4096) 0)]]) -> 2 <= y v).
  { intros v Hv. simpl in Hv.
    repeat (destruct Hv as [<-|Hv]; [vm_compute; discriminate|]).
    destruct Hv. }
  split; [discriminate|]. split; [exact H|].
  intros (v & Hv & Hz). apply H in Hv. lra.
Defined.

Lemma Forall2_map_r {A B : Type} (R : A -> B -> Prop) (f : A -> B)
    (l : list A) :
  (forall u, R u (f u)) -> Forall2 R l (map f l).
Proof. intros H. induction l; simpl; constructor; auto. Qed.

Lemma rounded_vertices_raise (k : IEEE.float) (m : Rounded.TextMesh) :
  Rounded.vertices (map (map (Rounded.raiseTri k)) m)
    = map (Rounded.raise k) (Rounded.vertices m).
Proof.
  unfold Rounded.vertices. induction m as [|l m IH]; simpl; [reflexivity|].
  rewrite !flat_map_app, map_app, IH. f_equal.
  clear. induction l as [|t l IH]; simpl; [reflexivity|]. now rewrite IH.
Qed.

(** C10, as amended.  On binary32 values [outlinePostprocess] is one
    vertical shift in single precision: there is one float [k], the
    absolute value of the minimum found, such that the result has the same
    letters in the same order, each with the same triangles in the same
    order, each corner with its x and z kept and its y replaced by the
    rounded sum of its y and [k]. *)
Theorem outlinePostprocess_translation (m : Rounded.TextMesh) :
  exists k : IEEE.float,
    k = IEEE.fabs (Rounded.findMin m) /\
    Forall2 (Forall2 (Rounded.shiftedTri k)) m (Rounded.outlinePostprocess m) /\
    Forall2 (Rounded.shifted k) (Rounded.vertices m)
            (Rounded.vertices (Rounded.outlinePostprocess m)).
Proof.
  exists (IEEE.fabs (Rounded.findMin m)). split; [reflexivity|]. split.
  - unfold Rounded.outlinePostprocess. apply Forall2_map_r. intros l.
    apply Forall2_map_r. intros t. repeat split.
  - unfold Rounded.outlinePostprocess. rewrite rounded_vertices_raise.
    apply Forall2_map_r. intros v. repeat split.
Qed.

(** The triangle with its corners at the heights -0.3f, 0.1f and 0: the
    float added to each is 0.3f. *)
Lemma outlinePostprocess_translation_witness :
  exists k : IEEE.float,
    k = Rounded.three_tenths /\
    Forall2 (Rounded.shifted k) (Rounded.vertices Rounded.sampleMesh)
            (Rounded.vertices (Rounded.outlinePostprocess Rounded.sampleMesh)).
Proof.
  destruct (outlinePostprocess_translation Rounded.sampleMesh)
    as (k & Ek & _ & H).
  exists k. split; [rewrite Ek; reflexivity | exact H].
Defined.

(** C10, the claim as stated, fails on binary32 values.  One triangle with
    its corners at the heights -0.3f, 0.1f and 0: the pass adds 0.3f to
    each; the corners end at 0, at the float nearest to 0.1f + 0.3f and at
    0.3f.  The second corner has gained less than the third, so no one
    number was added to all, and the difference between the second and the
    third corner is not what it was. *)
Lemma rounding_breaks_translation :
  let m := Rounded.sampleMesh in
  let height v := IEEE.value (Rounded.y v) in
  exists a b c a' b' c',
    Rounded.vertices m = [a; b; c] /\
    Rounded.vertices (Rounded.outlinePostprocess m) = [a'; b'; c'] /\
    height b' - height b == 40265319 # 134217728 /\
    height c' - height c == 40265320 # 134217728 /\
    ~ height b' - height c' == height b - height c /\
    ~ (exists k : Q,
         Forall2 (fun v v' => height v' == height v + k)
                 (Rounded.vertices m)
                 (Rounded.vertices (Rounded.outlinePostprocess m))).
Proof.
  intros m height.
  remember (Rounded.vertices m) as vs eqn:Evs. vm_compute in Evs.
  remember (Rounded.vertices (Rounded.outlinePostprocess m)) as vs' eqn:Evs'.
  vm_compute in Evs'. subst vs vs'.
  assert (P25 : 2 ^ (-25) == 1 # 33554432) by reflexivity.
  assert (P27 : 2 ^ (-27) == 1 # 134217728) by reflexivity.
  do 6 eexists. split; [reflexivity|]. split; [reflexivity|].
  unfold height. cbn [Rounded.y IEEE.value inject_Z].
  split; [rewrite P25, P27; reflexivity|].
  split; [rewrite P25; reflexivity|].
  split; [rewrite P25, P27; intros H; vm_compute in H; discriminate|].
  intros (k & H).
  inversion H as [|? ? ? ? _ H1]; subst.
  inversion H1 as [|? ? ? ? Hb H2]; subst.
  inversion H2 as [|? ? ? ? Hc _]; subst.
  cbn [Rounded.y IEEE.value inject_Z] in Hb, Hc.
  rewrite P25, P27 in Hb. rewrite P25 in Hc.
  unfold inject_Z in Hb, Hc. lra.
Qed.

(** ** One run per byte *)

(** C4.  When [rasterizeText] returns, the mesh has as many runs as the
    text has bytes, and run [i] is the run [addOneCharacter] returned for
    byte [i] -- called with the offset and in the world the loop reached
    after the bytes before it -- moved up by the constant of the
    normalization; it is empty when the glyph has no contours.  On the
    empty text [rasterizeText] returns the empty mesh, and
    [outlinePostprocess] leaves the empty mesh as it is. *)
Theorem one_run_per_byte {FT : FreeType} {VE : Outliner} {P2T : Poly2Tri}
    (text : string) (fontHeight bezierSteps : Z) (w : World) :
  (forall mesh w',
     rasterizeText text fontHeight bezierSteps w = Returned mesh w' ->
     length mesh = String.length text /\
     exists k : Q,
       forall i ch, nth_error (list_ascii_of_string text) i = Some ch ->
         exists before offset wi tris offset' wi',
           letterLoop (firstn i (list_ascii_of_string text)) bezierSteps 0 []
                      (sizedWorld w fontHeight) = Returned (before, offset) wi /\
           addOneCharacter ch bezierSteps offset wi
             = Returned (tris, offset') wi' /\
           nth_error mesh i = Some (map (raiseTri k) tris) /\
           (contoursOf wi ch bezierSteps = [] -> nth_error mesh i = Some [])) /\
  rasterizeText EmptyString fontHeight bezierSteps w
    = Returned [] (sizedWorld w fontHeight) /\
  outlinePostprocess [] = [].
Proof.
  split; [|split; reflexivity].
  intros mesh w' H.
  apply rasterizeText_Returned in H as (lm & off & Hl & ->). split.
  - unfold outlinePostprocess. rewrite length_map.
    transitivity (length (list_ascii_of_string text));
      [exact (letterLoop_length _ _ _ _ _ _ _ Hl)|].
    clear. induction text; simpl; auto.
  - exists (Qabs (findMin lm)). intros i ch Hi.
    apply nth_error_split in Hi as (pre & post & Etext & Elen).
    rewrite Etext in Hl |- *.
    apply letterLoop_app in Hl as (m1 & o1 & w1 & m2 & Hpre & Hpost & ->).
    apply letterLoop_cons in Hpost
      as (tris & o2 & w2 & m3 & Hch & _ & ->).
    assert (Hfirst : firstn i (pre ++ ch :: post) = pre).
    { rewrite <- Elen, firstn_app, firstn_all, Nat.sub_diag. simpl.
      apply app_nil_r. }
    assert (Hrun : nth_error (outlinePostprocess (m1 ++ tris :: m3)) i
                   = Some (map (raiseTri (Qabs (findMin (m1 ++ tris :: m3)))) tris)).
    { pose proof (letterLoop_length _ _ _ _ _ _ _ Hpre) as Hlen.
      change (length m1 = length pre) in Hlen.
      unfold outlinePostprocess. rewrite nth_error_map, nth_error_app2;
        rewrite Hlen, Elen; [|lia].
      now rewrite Nat.sub_diag. }
    exists m1, o1, w1, tris, o2, w2. rewrite Hfirst.
    repeat split; try assumption.
    intros Hnone. rewrite Hrun.
    apply addOneCharacter_Returned in Hch as (_ & Hloop & _).
    rewrite Hnone in Hloop. simpl in Hloop. inversion Hloop. reflexivity.
Qed.

(** The text "A " in the sample font: two bytes, two runs, the second one
    (the space) empty. *)
Lemma one_run_per_byte_witness :
  exists mesh w',
    Sample.rasterize "A " 12 4 (Sample.fresh (Sample.sampleFont 320))
      = Returned mesh w' /\
    length mesh = 2%nat /\ nth_error mesh 1 = Some [].
Proof.
  eexists. eexists. split; [vm_compute; reflexivity|].
  match goal with
  | |- length ?m = _ /\ _ =>
      destruct (proj1 (@one_run_per_byte Sample.freetype Sample.outliner
                  Sample.poly2tri "A " 12 4
                  (Sample.fresh (Sample.sampleFont 320))) m _ eq_refl)
        as (Hlen & k & Hrun)
  end.
  split; [exact Hlen|].
  destruct (Hrun 1%nat " "%char eq_refl)
    as (before & offset & wi & tris & offset' & wi' & Hb & _ & _ & He).
  apply He. vm_compute in Hb. inversion Hb; subst. reflexivity.
Defined.

(** ** The calls to the triangulator *)

Section Triangulation.

Context {VE : Outliner} {P2T : Poly2Tri}.

(** The loop over the contours returns exactly when the triangulator accepts
    each of its calls; the run is then what was pushed before, followed by
    the triangles of the calls in order. *)
Lemma contourLoop_calls (v : list Contour) (offset : Q) (cs : list nat)
    (acc tris : list Tri) :
  contourLoop v offset cs acc = Some tris <->
  exists tss, triangulated (cdtInputs v offset cs) tss /\
              tris = acc ++ flat_map (map toTri) tss.
Proof.
  unfold triangulated. revert acc.
  induction cs as [|c cs IH]; intros acc; simpl.
  - split.
    + intros H; inversion H; subst. exists []. split; [constructor|].
      now rewrite app_nil_r.
    + intros (tss & H & ->). inversion H; subst. simpl. now rewrite app_nil_r.
  - destruct (GetDirection (GetContour v c)); simpl; [|apply IH].
    destruct (CDT_Triangulate (triangulateContour v c offset)
                (holesOf v c (GetContour v c) offset)) as [ts|] eqn:E.
    + rewrite IH. split.
      * intros (tss & H & ->). exists (ts :: tss). split.
        -- constructor; [exact E | exact H].
        -- simpl. now rewrite app_assoc.
      * intros (tss & H & ->). inversion H as [|? ts' ? tss' E' H']; subst.
        simpl in E'. rewrite E in E'. inversion E'; subst ts'.
        exists tss'. split; [exact H'|]. simpl. now rewrite app_assoc.
    + split; [discriminate|].
      intros (tss & H & _). inversion H as [|? ts' ? tss' E' H']; subst.
      simpl in E'. congruence.
Qed.

(** The holes of a call are the contours that pass the test of the inner
    loop, in contour order. *)
Lemma holesOf_filter (v : list Contour) (c : nat) (offset : Q) :
  holesOf v c (GetContour v c) offset =
  map (fun cm => triangulateContour v cm offset)
      (filter (isHoleOf v c) (seq 0 (length v))).
Proof.
  unfold holesOf, isHoleOf. induction (seq 0 (length v)) as [|cm l IH]; simpl;
    [reflexivity|].
  rewrite IH.
  now destruct (negb (c =? cm)%nat && negb (GetDirection (GetContour v cm)) &&
                IsInside (GetContour v cm) (GetContour v c)).
Qed.

(** The calls are those for the contours with the direction flag set, in
    contour order. *)
Lemma cdtInputs_filter (v : list Contour) (offset : Q) (cs : list nat) :
  cdtInputs v offset cs =
  map (fun c => (triangulateContour v c offset,
                 holesOf v c (GetContour v c) offset))
      (filter (fun c => GetDirection (GetContour v c)) cs).
Proof.
  unfold cdtInputs. induction cs as [|c cs IH]; simpl; [reflexivity|].
  rewrite IH. now destruct (GetDirection (GetContour v c)).
Qed.

Lemma GetContour_In (v : list Contour) (c : nat) :
  (c < length v)%nat -> In (GetContour v c) v.
Proof. intros H. unfold GetContour. now apply nth_In. Qed.

End Triangulation.

(** ** The vertices of a letter *)

Section RoundedLetters.

Context {FT : FreeType} {VE : Rounded.Outliner} {P2T : Rounded.Poly2Tri}.

(** When the call for a letter returns, its run is what the loop over the
    contours made at the offset after kerning and hinting. *)
Lemma rounded_addOneCharacter_Returned (ch : ascii) (bezierSteps : Z)
    (offset : IEEE.double) (w w' : World) (tris : Rounded.GlyphRun)
    (offset' : IEEE.double) :
  Rounded.addOneCharacter ch bezierSteps offset w = Returned (tris, offset') w' ->
  Rounded.contourLoop (Rounded.contoursOf w ch bezierSteps)
    (Rounded.penPosition w ch offset)
    (seq 0 (length (Rounded.contoursOf w ch bezierSteps))) [] = Some tris /\
  w' = worldAfter w ch.
Proof.
  unfold Rounded.addOneCharacter, Rounded.contoursOf, Rounded.penPosition,
    worldAfter, loadedGlyph, loadedFace, loadError, charIndex.
  unfold bind, get, ret, modify, report, printf, set_mFace,
    set_prevCharIndex, set_curCharIndex, set_prev_rsb_delta, throw, exit,
    undefined. simpl.
  destruct (FT_Load_Glyph (mFace w) (FT_Get_Char_Index (mFace w) ch)
              FT_LOAD_DEFAULT) as [err face]; simpl.
  destruct (FT_Get_Glyph (glyph face)) as [g|];
    [|destruct (err =? 0)%Z; discriminate].
  destruct (is_outline (format g));
    [|destruct (err =? 0)%Z; discriminate].
  match goal with
  | |- context [Rounded.contourLoop ?v ?o ?cs []] =>
      destruct (Rounded.contourLoop v o cs []) as [ts|]
  end.
  - destruct (err =? 0)%Z; simpl; unfold with_prevCharIndex; simpl;
      intros H; inversion H; subst; split; reflexivity.
  - destruct (err =? 0)%Z; simpl; discriminate.
Qed.

(** Every triangle of the loop over the contours was pushed before, or
    comes from a triangle of the triangulation of one of the contours. *)
Lemma rounded_contourLoop_In (v : list Rounded.Contour) (offset : IEEE.double)
    (cs : list nat) (acc tris : list Rounded.Tri) :
  Rounded.contourLoop v offset cs acc = Some tris ->
  forall t, In t tris ->
    In t acc \/
    exists c0 ts ot,
      In c0 cs /\ Rounded.GetDirection (Rounded.GetContour v c0) = true /\
      Rounded.CDT_Triangulate
        (Rounded.triangulateContour v c0 (IEEE.to_float offset))
        (Rounded.holesOf v c0 (Rounded.GetContour v c0) offset) = Some ts /\
      In ot ts /\ t = Rounded.toTri ot.
Proof.
  revert acc. induction cs as [|c0 cs IH]; intros acc H t Ht; simpl in H.
  - inversion H; subst. now left.
  - destruct (Rounded.GetDirection (Rounded.GetContour v c0)) eqn:Ed.
    + destruct (Rounded.CDT_Triangulate _ _) as [ts|] eqn:Et;
        [|discriminate].
      destruct (IH _ H t Ht) as [Hacc|(c1 & ts1 & ot & Hc & Hd & E & Ho & ->)].
      * apply in_app_or in Hacc as [Hacc|Hnew]; [now left|right].
        apply in_map_iff in Hnew as (ot & <- & Hot).
        exists c0, ts, ot. repeat split; try assumption. now left.
      * right. exists c1, ts1, ot. repeat split; try assumption. now right.
    + destruct (IH _ H t Ht) as [Hacc|(c1 & ts1 & ot & Hc & Hd & E & Ho & ->)];
        [now left|].
      right. exists c1, ts1, ot. repeat split; try assumption. now right.
Qed.

Lemma rounded_GetContour_In (v : list Rounded.Contour) (c0 : nat) :
  (c0 < length v)%nat -> In (Rounded.GetContour v c0) v.
Proof. intros H. unfold Rounded.GetContour. now apply nth_In. Qed.

(** Every point of a polyline is a contour point, divided by 64 and moved
    by the offset, in [double]. *)
Lemma rounded_triangulateContour_point (v : list Rounded.Contour) (c0 : nat)
    (offset : IEEE.float) (p : Rounded.Point) :
  In p (Rounded.triangulateContour v c0 offset) ->
  exists d, In d (Rounded.GetPoints (Rounded.GetContour v c0)) /\
            p = (IEEE.dadd (IEEE.ddiv (fst d) Rounded.sixtyFour)
                           (IEEE.to_double offset),
                 IEEE.ddiv (snd d) Rounded.sixtyFour).
Proof.
  unfold Rounded.triangulateContour. intros H.
  apply in_map_iff in H as (d & <- & Hd). now exists d.
Qed.

End RoundedLetters.

(** C5.  On IEEE values, with every cast of the code in place.  When the
    call for a letter returns, each of its triangles comes from a triangle
    [ot] of the triangulation of a contour [c0] of the glyph that has the
    direction flag set: each corner has the x of the point of [ot] cast to
    [float], the negated y of that point cast to [float], and z = +0.
    Every point handed to that triangulation, in the polyline or in a
    hole, is a contour point [d] of the glyph, in 1/64 unit, written as
    [(d0 / 64 + offset, d1 / 64)] in [double], where [offset] is the
    running offset of the letter (after kerning and hinting) cast to
    [float]. *)
Theorem emitted_vertices {FT : FreeType} {VE : Rounded.Outliner}
    {P2T : Rounded.Poly2Tri} (ch : ascii) (bezierSteps : Z)
    (offset : IEEE.double) (w w' : World) (tris : Rounded.GlyphRun)
    (offset' : IEEE.double) :
  Rounded.addOneCharacter ch bezierSteps offset w = Returned (tris, offset') w' ->
  let v := Rounded.contoursOf w ch bezierSteps in
  let pen := Rounded.penPosition w ch offset in
  forall t, In t tris ->
    exists c0 ts ot,
      (c0 < length v)%nat /\
      Rounded.GetDirection (Rounded.GetContour v c0) = true /\
      Rounded.CDT_Triangulate
        (Rounded.triangulateContour v c0 (IEEE.to_float pen))
        (Rounded.holesOf v c0 (Rounded.GetContour v c0) pen) = Some ts /\
      In ot ts /\
      Rounded.a t =
        Rounded.mkVec3 (IEEE.to_float (fst (Rounded.p0 ot)))
                       (IEEE.to_float (IEEE.dopp (snd (Rounded.p0 ot))))
                       (SpecFloat.S754_zero false) /\
      Rounded.b t =
        Rounded.mkVec3 (IEEE.to_float (fst (Rounded.p1 ot)))
                       (IEEE.to_float (IEEE.dopp (snd (Rounded.p1 ot))))
                       (SpecFloat.S754_zero false) /\
      Rounded.c t =
        Rounded.mkVec3 (IEEE.to_float (fst (Rounded.p2 ot)))
                       (IEEE.to_float (IEEE.dopp (snd (Rounded.p2 ot))))
                       (SpecFloat.S754_zero false) /\
      forall p,
        In p (Rounded.triangulateContour v c0 (IEEE.to_float pen)) \/
        (exists h, In h (Rounded.holesOf v c0 (Rounded.GetContour v c0) pen) /\
                   In p h) ->
        exists contour d,
          In contour v /\ In d (Rounded.GetPoints contour) /\
          p = (IEEE.dadd (IEEE.ddiv (fst d) Rounded.sixtyFour)
                         (IEEE.to_double (IEEE.to_float pen)),
               IEEE.ddiv (snd d) Rounded.sixtyFour).
Proof.
  intros H v pen t Ht.
  apply rounded_addOneCharacter_Returned in H as (Hloop & _).
  fold v pen in Hloop.
  destruct (rounded_contourLoop_In _ _ _ _ _ Hloop t Ht)
    as [[]|(c0 & ts & ot & Hc & Hd & E & Ho & ->)].
  apply in_seq in Hc.
  exists c0, ts, ot. split; [lia|]. repeat split; try assumption.
  intros p [Hp|(h & Hh & Hp)].
  - apply rounded_triangulateContour_point in Hp as (d & Hd' & ->).
    exists (Rounded.GetContour v c0), d. repeat split; try assumption.
    apply rounded_GetContour_In. lia.
  - unfold Rounded.holesOf in Hh. apply in_flat_map in Hh as (cm & Hcm & Hh).
    apply in_seq in Hcm.
    destruct (negb (c0 =? cm)%nat &&
              negb (Rounded.GetDirection (Rounded.GetContour v cm)) &&
              Rounded.IsInside (Rounded.GetContour v cm)
                               (Rounded.GetContour v c0)); [|destruct Hh].
    destruct Hh as [<-|[]].
    apply rounded_triangulateContour_point in Hp as (d & Hd' & ->).
    exists (Rounded.GetContour v cm), d. repeat split; try assumption.
    apply rounded_GetContour_In. lia.
Qed.

(** The letter V after the letter A in the sample font: the kerning pair
    moves V two units to the left, and the first corner of its triangle is
    at x = 9, y = -10. *)
Lemma emitted_vertices_witness :
  let w := @mkWorld Sample.freetype
             (Sample.mkFace (Sample.sampleFont 320) 768 Sample.glyph_A)
             1%Z 1%Z 0%Z [] in
  exists tris offset' w' t ot,
    @Rounded.addOneCharacter Sample.freetype Rounded.outliner Rounded.poly2tri
      "V"%char 4 (IEEE.double_of_Z 11) w = Returned (tris, offset') w' /\
    In t tris /\
    Rounded.a t =
      Rounded.mkVec3 (IEEE.to_float (fst (Rounded.p0 ot)))
                     (IEEE.to_float (IEEE.dopp (snd (Rounded.p0 ot))))
                     (SpecFloat.S754_zero false) /\
    IEEE.value (Rounded.x (Rounded.a t)) == 9 /\
    IEEE.value (Rounded.y (Rounded.a t)) == -10.
Proof.
  intros w.
  destruct (@Rounded.addOneCharacter Sample.freetype Rounded.outliner
              Rounded.poly2tri "V"%char 4 (IEEE.double_of_Z 11) w)
    as [[tris o] w1|w1|st w1|w1] eqn:E; try (vm_compute in E; discriminate).
  pose proof (@emitted_vertices Sample.freetype Rounded.outliner
                Rounded.poly2tri "V"%char 4 (IEEE.double_of_Z 11) w w1 tris o E)
    as H.
  vm_compute in E. inversion E; subst tris o w1. clear E.
  match type of H with
  | let _ := _ in let _ := _ in forall t, In t (?t0 :: _) -> _ =>
      destruct (H t0 (or_introl eq_refl))
        as (c0 & ts & ot & _ & _ & _ & _ & Ha & _);
      exists [t0]
  end.
  do 4 eexists. split; [reflexivity|]. split; [left; reflexivity|].
  split; [exact Ha|]. split; vm_compute; reflexivity.
Defined.

(** ** Kerning, hinting and the carried state *)

(** C6.  When the call for a letter returns, the offset its contours are
    placed at is the offset after the kerning step, minus 1 when the
    previous right side bearing delta minus the left side bearing delta of
    the glyph is at least 32, plus 1 when that difference is below -32, and
    unchanged otherwise; the triangles are built at that offset, the
    returned offset is that offset plus the advance width, and the right
    side bearing delta of the glyph is the value carried to the next
    call. *)
Theorem hinting_correction {FT : FreeType} {VE : Outliner} {P2T : Poly2Tri}
    (ch : ascii) (bezierSteps : Z) (offset : Q) (w w' : World)
    (tris : GlyphRun) (offset' : Q) :
  addOneCharacter ch bezierSteps offset w = Returned (tris, offset') w' ->
  let carry := (prev_rsb_delta w - lsb_delta (loadedGlyph w ch))%Z in
  let kernedOffset :=
    kerned (loadedFace w ch) (prevCharIndex w) (charIndex w ch) offset in
  ((32 <= carry)%Z -> penPosition w ch offset = kernedOffset - 1) /\
  ((carry < -32)%Z -> penPosition w ch offset = kernedOffset + 1) /\
  ((-32 <= carry < 32)%Z -> penPosition w ch offset = kernedOffset) /\
  contourLoop (contoursOf w ch bezierSteps) (penPosition w ch offset)
              (seq 0 (length (contoursOf w ch bezierSteps))) [] = Some tris /\
  offset' = penPosition w ch offset + advanceWidth w ch /\
  prev_rsb_delta w' = rsb_delta (loadedGlyph w ch).
Proof.
  intros H carry kernedOffset.
  apply addOneCharacter_Returned in H as (_ & Hloop & -> & ->).
  unfold penPosition, hinted. fold carry. fold kernedOffset.
  repeat split; try assumption.
  - intros Hc. apply Z.leb_le in Hc. now rewrite Hc.
  - intros Hc. destruct (32 <=? carry)%Z eqn:E; [apply Z.leb_le in E; lia|].
    apply Z.ltb_lt in Hc. now rewrite Hc.
  - intros [Hlo Hhi].
    destruct (32 <=? carry)%Z eqn:E; [apply Z.leb_le in E; lia|].
    destruct (carry <? -32)%Z eqn:E'; [apply Z.ltb_lt in E'; lia|].
    reflexivity.
Qed.

(** The letter A after the letter V in the sample font: V leaves a carry
    of 20, A has a left delta of -16, the difference is 36 and the offset
    goes one unit back. *)
Lemma hinting_correction_witness :
  let w := @mkWorld Sample.freetype
             (Sample.mkFace (Sample.sampleFont 320) 768 Sample.glyph_V)
             2%Z 2%Z 20%Z [] in
  @penPosition Sample.freetype w "A"%char 11 = 11 + inject_Z (-2) - 1 /\
  prev_rsb_delta (@worldAfter Sample.freetype w "A"%char) = 0%Z.
Proof.
  intros w.
  destruct (@hinting_correction Sample.freetype Sample.outliner Sample.poly2tri
              "A"%char 4 11 w (@worldAfter Sample.freetype w "A"%char)
              [mkTri (mkVec3 (512 # 64) (- (0 # 64)) 0)
                     (mkVec3 (832 # 64) (- (640 # 64)) 0)
                     (mkVec3 (1152 # 64) (- (0 # 64)) 0)]
              (11 + inject_Z (-2) - 1 + inject_Z 11) eq_refl)
    as (Hminus & _ & _ & _ & _ & Hcarry).
  split; [apply Hminus; vm_compute; discriminate | exact Hcarry].
Defined.

(** ** Holes and degenerate contours *)

Lemma Forall2_map_l {A B C : Type} (R : B -> C -> Prop) (f : A -> B)
    (l : list A) (r : list C) :
  Forall2 R (map f l) r <-> Forall2 (fun u => R (f u)) l r.
Proof.
  revert r. induction l as [|u l IH]; intros r; simpl.
  - split; intros H; inversion H; constructor.
  - split; intros H; inversion H; subst; constructor; try assumption;
      now apply IH.
Qed.

Lemma isHoleOf_spec {VE : Outliner} (v : list Contour) (c cm : nat) :
  In cm (filter (isHoleOf v c) (seq 0 (length v))) <->
  (cm < length v)%nat /\ cm <> c /\
  GetDirection (GetContour v cm) = false /\
  IsInside (GetContour v cm) (GetContour v c) = true.
Proof.
  rewrite filter_In, in_seq. unfold isHoleOf.
  rewrite !andb_true_iff, !negb_true_iff, Nat.eqb_neq.
  split; [intros (? & (? & ?) & ?) | intros (? & ? & ? & ?)];
    repeat split; auto; lia.
Qed.

(** C7, as amended.  When the call for a letter returns, its run is made,
    for each contour [c] of the glyph with the direction flag set and in
    contour order, of the triangles of one triangulation of [c] whose holes
    are all the contours [cm] other than [c] that have the flag clear and
    are inside [c] according to [IsInside]: a hole goes to every outer
    contour that contains it, and to no other contour. *)
Theorem holes_of_every_container {FT : FreeType} {VE : Outliner}
    {P2T : Poly2Tri} (ch : ascii) (bezierSteps : Z) (offset : Q)
    (w w' : World) (tris : GlyphRun) (offset' : Q) :
  addOneCharacter ch bezierSteps offset w = Returned (tris, offset') w' ->
  let v := contoursOf w ch bezierSteps in
  let pen := penPosition w ch offset in
  exists tss,
    tris = flat_map (map toTri) tss /\
    Forall2
      (fun c ts =>
         CDT_Triangulate
           (triangulateContour v c pen)
           (map (fun cm => triangulateContour v cm pen)
                (filter (isHoleOf v c) (seq 0 (length v)))) = Some ts)
      (filter (fun c => GetDirection (GetContour v c)) (seq 0 (length v)))
      tss /\
    forall c cm,
      In cm (filter (isHoleOf v c) (seq 0 (length v))) <->
      (cm < length v)%nat /\ cm <> c /\
      GetDirection (GetContour v cm) = false /\
      IsInside (GetContour v cm) (GetContour v c) = true.
Proof.
  intros H v pen.
  apply addOneCharacter_Returned in H as (_ & Hloop & _).
  fold v pen in Hloop.
  apply contourLoop_calls in Hloop as (tss & Hcalls & ->).
  exists tss. split; [reflexivity|]. split; [|apply isHoleOf_spec].
  unfold triangulated in Hcalls. rewrite cdtInputs_filter in Hcalls.
  apply Forall2_map_l in Hcalls.
  eapply Forall2_impl; [|exact Hcalls].
  intros c0 ts E. simpl in E. now rewrite holesOf_filter in E.
Qed.

(** The at sign of the sample font: four contours, two of them outer.  The
    call returns; the triangulation of the outer ring gets the holes 1 and
    3, the triangulation of the inner ring gets the hole 3: the hole 3 goes
    to both outer contours that contain it. *)
Lemma holes_of_every_container_witness :
  let w := Sample.fresh (Sample.sampleFont 320) in
  let v := @contoursOf Sample.freetype Sample.outliner w "@"%char 4 in
  exists tris offset' w' tss,
    @addOneCharacter Sample.freetype Sample.outliner Sample.poly2tri
      "@"%char 4 0 w = Returned (tris, offset') w' /\
    tris = flat_map (map toTri) tss /\
    length tss = 2%nat /\
    filter (fun c => GetDirection (GetContour v c)) (seq 0 (length v))
      = [0%nat; 2%nat] /\
    filter (@isHoleOf Sample.outliner v 0) (seq 0 (length v))
      = [1%nat; 3%nat] /\
    filter (@isHoleOf Sample.outliner v 2) (seq 0 (length v)) = [3%nat] /\
    In 3%nat (filter (@isHoleOf Sample.outliner v 0) (seq 0 (length v))) /\
    In 3%nat (filter (@isHoleOf Sample.outliner v 2) (seq 0 (length v))).
Proof.
  intros w v.
  destruct (@addOneCharacter Sample.freetype Sample.outliner Sample.poly2tri
              "@"%char 4 0 w) as [[tris o] w1|w1|st w1|w1] eqn:E;
    try (vm_compute in E; discriminate).
  destruct (@holes_of_every_container Sample.freetype Sample.outliner
              Sample.poly2tri "@"%char 4 0 w w1 tris o E)
    as (tss & Hrun & Hcalls & Hiff).
  exists tris, o, w1, tss. split; [reflexivity|]. split; [exact Hrun|].
  split.
  - apply Forall2_length in Hcalls. rewrite <- Hcalls. reflexivity.
  - split; [reflexivity|]. split; [reflexivity|]. split; [reflexivity|].
    split; apply Hiff; repeat split; try discriminate; vm_compute; lia.
Defined.

(** C7, the claim as stated, fails on a glyph with an outer contour inside
    the hole of another one, such as an at sign.  In the sample glyph the
    contours 0 and 2 are outer contours, 2 lies inside 0 and has the smaller
    area, and the hole 3 lies inside both; the polyline of 3 is a hole of
    the triangulation of 0 as well as of that of 2. *)
Lemma at_sign_hole_attached_twice :
  let v := @contoursOf Sample.freetype Sample.outliner
             (Sample.fresh (Sample.sampleFont 320)) "@"%char 4 in
  let holes c :=
    @holesOf Sample.outliner v c (GetContour v c) 0 in
  GetDirection (GetContour v 0) = true /\
  GetDirection (GetContour v 2) = true /\
  GetDirection (GetContour v 3) = false /\
  Sample.inside (GetContour v 3) (GetContour v 0) = true /\
  Sample.inside (GetContour v 3) (GetContour v 2) = true /\
  Sample.inside (GetContour v 2) (GetContour v 0) = true /\
  In (triangulateContour v 3 0) (holes 0%nat) /\
  In (triangulateContour v 3 0) (holes 2%nat) /\
  ~ (forall c, GetDirection (GetContour v c) = true ->
               In (triangulateContour v 3 0) (holes c) -> c = 2%nat).
Proof.
  intros v holes.
  assert (H0 : In (triangulateContour v 3 0) (holes 0%nat))
    by (vm_compute; right; left; reflexivity).
  assert (H2 : In (triangulateContour v 3 0) (holes 2%nat))
    by (vm_compute; left; reflexivity).
  repeat split; try reflexivity; try assumption.
  intros Hclaim. specialize (Hclaim 0%nat eq_refl H0). discriminate.
Qed.

(** C8, as amended.  There is no test on the number of points.  When the
    call for a letter returns, every contour [c] of the glyph with the
    direction flag set was handed to the triangulator with all its points,
    however few, the triangulator accepted it and its triangles are part of
    the run; every contour with the flag clear that is inside [c] was handed
    over as a hole with all its points.  When the triangulator throws on
    one of these calls, the call for the letter throws. *)
Theorem no_point_count_test {FT : FreeType} {VE : Outliner} {P2T : Poly2Tri}
    (ch : ascii) (bezierSteps : Z) (offset : Q) (w : World) (c : nat) :
  let v := contoursOf w ch bezierSteps in
  let pen := penPosition w ch offset in
  let polyline := triangulateContour v c pen in
  let holes := holesOf v c (GetContour v c) pen in
  (c < length v)%nat ->
  GetDirection (GetContour v c) = true ->
  length polyline = length (GetPoints (GetContour v c)) /\
  (forall cm, (cm < length v)%nat -> cm <> c ->
     GetDirection (GetContour v cm) = false ->
     IsInside (GetContour v cm) (GetContour v c) = true ->
     In (triangulateContour v cm pen) holes /\
     length (triangulateContour v cm pen)
       = length (GetPoints (GetContour v cm))) /\
  (forall tris offset' w',
     addOneCharacter ch bezierSteps offset w = Returned (tris, offset') w' ->
     exists ts, CDT_Triangulate polyline holes = Some ts /\
                incl (map toTri ts) tris) /\
  (CDT_Triangulate polyline holes = None ->
   forall g, FT_Get_Glyph (loadedGlyph w ch) = Some g ->
             is_outline (format g) = true ->
     exists w', addOneCharacter ch bezierSteps offset w = Threw w').
Proof.
  intros v pen polyline holes Hc Hdir.
  assert (Hcall : In (polyline, holes) (cdtInputs v pen (seq 0 (length v)))).
  { rewrite cdtInputs_filter.
    apply (in_map (fun c0 => (triangulateContour v c0 pen,
                              holesOf v c0 (GetContour v c0) pen))).
    apply filter_In. split; [apply in_seq; lia | exact Hdir]. }
  split; [|split; [|split]].
  - unfold polyline, triangulateContour. apply length_map.
  - intros cm Hcm Hne Hhole Hin. split.
    + unfold holes. rewrite holesOf_filter.
      apply (in_map (fun cm0 => triangulateContour v cm0 pen)).
      apply isHoleOf_spec. auto.
    + unfold triangulateContour. apply length_map.
  - intros tris offset' w' H.
    apply addOneCharacter_Returned in H as (_ & Hloop & _).
    fold v pen in Hloop.
    apply contourLoop_calls in Hloop as (tss & Hcalls & ->).
    unfold triangulated in Hcalls. clear - Hcalls Hcall.
    induction Hcalls as [|call ts calls tss E _ IH]; [destruct Hcall|].
    destruct Hcall as [->|Hcall].
    + exists ts. split; [exact E|]. simpl. apply incl_appl, incl_refl.
    + destruct (IH Hcall) as (ts' & E' & Hincl). exists ts'.
      split; [exact E'|]. simpl. now apply incl_appr.
  - intros Hnone g Hg Ho.
    destruct (addOneCharacter ch bezierSteps offset w)
      as [[tris o] w1|w1|st w1|w1] eqn:E.
    + apply addOneCharacter_Returned in E as (_ & Hloop & _).
      fold v pen in Hloop.
      apply contourLoop_calls in Hloop as (tss & Hcalls & _).
      exfalso. unfold triangulated in Hcalls. clear - Hcalls Hcall Hnone.
      induction Hcalls as [|call ts calls tss E _ IH]; [destruct Hcall|].
      destruct Hcall as [->|Hcall]; [simpl in E; congruence | auto].
    + now exists w1.
    + exfalso. revert E. unfold addOneCharacter, bind, get, ret, modify,
        report, printf, set_mFace, set_prevCharIndex, set_curCharIndex,
        set_prev_rsb_delta, throw, exit, undefined. simpl.
      unfold loadedGlyph, loadedFace, charIndex in Hg.
      destruct (FT_Load_Glyph (mFace w) (FT_Get_Char_Index (mFace w) ch)
                  FT_LOAD_DEFAULT) as [err face]; simpl in *.
      rewrite Hg, Ho.
      destruct (err =? 0)%Z; simpl;
        destruct (contourLoop _ _ _ _); discriminate.
    + exfalso. revert E. unfold addOneCharacter, bind, get, ret, modify,
        report, printf, set_mFace, set_prevCharIndex, set_curCharIndex,
        set_prev_rsb_delta, throw, exit, undefined. simpl.
      unfold loadedGlyph, loadedFace, charIndex in Hg.
      destruct (FT_Load_Glyph (mFace w) (FT_Get_Char_Index (mFace w) ch)
                  FT_LOAD_DEFAULT) as [err face]; simpl in *.
      rewrite Hg, Ho.
      destruct (err =? 0)%Z; simpl;
        destruct (contourLoop _ _ _ _); discriminate.
Qed.

(** The square with the stray contour, in the sample font: the stray
    contour has two points and is handed over as a hole of the square. *)
Lemma no_point_count_test_witness :
  let w := Sample.fresh (Sample.sampleFont 320) in
  let v := @contoursOf Sample.freetype Sample.outliner w "!"%char 4 in
  length (GetPoints (GetContour v 1)) = 2%nat /\
  In (triangulateContour v 1 0)
     (@holesOf Sample.outliner v 0 (GetContour v 0) 0) /\
  length (triangulateContour v 1 0) = 2%nat.
Proof.
  intros w v.
  destruct (@no_point_count_test Sample.freetype Sample.outliner
              Sample.poly2tri "!"%char 4 0 w 0%nat
              ltac:(vm_compute; lia) eq_refl)
    as (_ & Hholes & _).
  destruct (Hholes 1%nat ltac:(vm_compute; lia) ltac:(discriminate)
                   eq_refl eq_refl) as (Hin & Hlen).
  split; [reflexivity|]. split; [exact Hin | exact Hlen].
Defined.

(** C8, the claim as stated, fails on that glyph: its second contour has
    fewer than three points, and its polyline is among the holes of the one
    call to the triangulator that the call for the letter makes. *)
Lemma stray_contour_reaches_triangulator :
  let w := Sample.fresh (Sample.sampleFont 320) in
  let v := @contoursOf Sample.freetype Sample.outliner w "!"%char 4 in
  let pen := @penPosition Sample.freetype w "!"%char 0 in
  (length (GetPoints (GetContour v 1)) < 3)%nat /\
  @cdtInputs Sample.outliner v pen (seq 0 (length v))
    = [(triangulateContour v 0 pen, [triangulateContour v 1 pen])] /\
  ~ (forall call h,
       In call (@cdtInputs Sample.outliner v pen (seq 0 (length v))) ->
       h = fst call \/ In h (snd call) -> (3 <= length h)%nat).
Proof.
  intros w v pen.
  assert (Hcalls : @cdtInputs Sample.outliner v pen (seq 0 (length v))
                   = [(triangulateContour v 0 pen, [triangulateContour v 1 pen])])
    by (vm_compute; reflexivity).
  split; [vm_compute; lia|]. split; [exact Hcalls|].
  intros Hclaim.
  specialize (Hclaim _ (triangulateContour v 1 pen)
                     ltac:(rewrite Hcalls; left; reflexivity)
                     ltac:(right; left; reflexivity)).
  vm_compute in Hclaim. lia.
Qed.

(** ** The final offset *)

Section Cursor.

Context {FT : FreeType} {VE : Outliner} {P2T : Poly2Tri}.

Lemma penPosition_sum (w : World) (ch : ascii) (offset : Q) :
  penPosition w ch offset == offset + kerningAdjust w ch + hintingNudge w ch.
Proof.
  unfold penPosition, kerningAdjust, hintingNudge, hinted, kerned.
  destruct (FT_HAS_KERNING (loadedFace w ch) && negb (prevCharIndex w =? 0)%Z);
    destruct (32 <=? prev_rsb_delta w - lsb_delta (loadedGlyph w ch))%Z;
    try destruct (prev_rsb_delta w - lsb_delta (loadedGlyph w ch) <? -32)%Z;
    lra.
Qed.

(** The offset the loop over the letters ends with. *)
Lemma letterLoop_offset (text : list ascii) (bezierSteps : Z) (offset : Q)
    (w w' : World) (m : TextMesh) (offset' : Q) :
  letterLoop text bezierSteps offset [] w = Returned (m, offset') w' ->
  offset' == offset + totalAdvance text w.
Proof.
  revert offset w m. induction text as [|ch rest IH]; intros offset w m.
  - simpl. unfold ret. intros H; inversion H; subst. lra.
  - intros H. apply letterLoop_cons in H as (tris & o1 & w1 & m' & Ha & Hl & _).
    apply addOneCharacter_Returned in Ha as (_ & _ & -> & ->).
    apply IH in Hl. rewrite Hl. simpl. rewrite penPosition_sum. lra.
Qed.

End Cursor.

(** C9, as amended.  [rasterizeText] returns the mesh only.  The loop over
    the letters ends with an offset that is the sum, over the letters, of
    kerning adjustment, hinting nudge and advance width; the mesh returned
    is the mesh of the loop after [outlinePostprocess], and the offset is
    not part of what is returned. *)
Theorem final_offset_is_total_advance {FT : FreeType} {VE : Outliner}
    {P2T : Poly2Tri} (text : string) (fontHeight bezierSteps : Z)
    (w w' : World) (mesh : TextMesh) :
  rasterizeText text fontHeight bezierSteps w = Returned mesh w' ->
  exists lm offset,
    letterLoop (list_ascii_of_string text) bezierSteps 0 []
               (sizedWorld w fontHeight) = Returned (lm, offset) w' /\
    mesh = outlinePostprocess lm /\
    offset == totalAdvance (list_ascii_of_string text)
                           (sizedWorld w fontHeight).
Proof.
  intros H. apply rasterizeText_Returned in H as (lm & offset & Hl & ->).
  exists lm, offset. repeat split; try assumption.
  rewrite (letterLoop_offset _ _ _ _ _ _ _ Hl). lra.
Qed.

(** Two spaces in the sample font with spaces of five units: the loop ends
    at offset 10. *)
Lemma final_offset_is_total_advance_witness :
  exists lm offset w',
    @letterLoop Sample.freetype Sample.outliner Sample.poly2tri
      [" "%char; " "%char] 4 0 []
      (sizedWorld (Sample.fresh (Sample.sampleFont 320)) 12)
      = Returned (lm, offset) w' /\
    offset == 10.
Proof.
  pose (w := Sample.fresh (Sample.sampleFont 320)).
  destruct (@final_offset_is_total_advance Sample.freetype Sample.outliner
              Sample.poly2tri "  " 12 4 w
              (@worldAfter Sample.freetype (sizedWorld w 12) " "%char)
              [[]; []] eq_refl)
    as (lm & offset & Hl & _ & Hsum).
  exists lm, offset, (@worldAfter Sample.freetype (sizedWorld w 12) " "%char).
  split; [exact Hl|]. rewrite Hsum. vm_compute. reflexivity.
Defined.

(** C9, the claim as stated, fails: what [rasterizeText] returns does not
    tell the final offset.  For a single space it returns the same mesh in
    a font whose space is five units wide and in one whose space is seven
    units wide, while the loop ended at 5 in the first and at 7 in the
    second. *)
Lemma returned_mesh_hides_final_offset :
  let w5 := Sample.fresh (Sample.sampleFont 320) in
  let w7 := Sample.fresh (Sample.sampleFont 448) in
  exists mesh w5' w7' o5 o7,
    Sample.rasterize " " 12 4 w5 = Returned mesh w5' /\
    Sample.rasterize " " 12 4 w7 = Returned mesh w7' /\
    @letterLoop Sample.freetype Sample.outliner Sample.poly2tri
      [" "%char] 4 0 [] (sizedWorld w5 12) = Returned ([[]], o5) w5' /\
    @letterLoop Sample.freetype Sample.outliner Sample.poly2tri
      [" "%char] 4 0 [] (sizedWorld w7 12) = Returned ([[]], o7) w7' /\
    o5 == 5 /\ o7 == 7 /\ ~ o5 == o7.
Proof.
  intros w5 w7. do 5 eexists.
  split; [vm_compute; reflexivity|].
  split; [vm_compute; reflexivity|].
  split; [vm_compute; reflexivity|].
  split; [vm_compute; reflexivity|].
  split; [reflexivity|]. split; [reflexivity|]. discriminate.
Qed.

(** ** A glyph that is not an outline *)

Section Exit.

Context {FT : FreeType} {VE : Outliner} {P2T : Poly2Tri}.

(** The loop over a text cut in two, whatever the outcome. *)
Lemma letterLoop_app_outcome (pre post : list ascii) (bezierSteps : Z)
    (offset : Q) (acc : TextMesh) (w : World) :
  letterLoop (pre ++ post) bezierSteps offset acc w =
  match letterLoop pre bezierSteps offset acc w with
  | Returned r w1 => letterLoop post bezierSteps (snd r) (fst r) w1
  | Threw w1 => Threw w1
  | Exited st w1 => Exited st w1
  | Undefined w1 => Undefined w1
  end.
Proof.
  revert offset acc w. induction pre as [|ch pre IH]; intros offset acc w.
  - reflexivity.
  - simpl. unfold bind.
    destruct (addOneCharacter ch bezierSteps offset w) as [r w1|w1|st w1|w1];
      try reflexivity.
    apply IH.
Qed.

(** The call for a glyph that is not an outline prints its message and ends
    the process with status 0. *)
Lemma addOneCharacter_not_outline (ch : ascii) (bezierSteps : Z) (offset : Q)
    (w : World) (g : FT_GlyphRec) :
  FT_Get_Glyph (loadedGlyph w ch) = Some g ->
  is_outline (format g) = false ->
  exists wx,
    addOneCharacter ch bezierSteps offset w = Exited 0 wx /\
    exists lines,
      stdout wx = lines ++ [("Invalid Glyph Format" ++ newline)%string].
Proof.
  unfold loadedGlyph, loadedFace, charIndex. intros Hg Ho.
  unfold addOneCharacter, bind, get, ret, modify, report, printf, set_mFace,
    set_curCharIndex, exit. simpl.
  destruct (FT_Load_Glyph (mFace w) (FT_Get_Char_Index (mFace w) ch)
              FT_LOAD_DEFAULT) as [err face]; simpl in *.
  rewrite Hg, Ho.
  destruct (err =? 0)%Z; simpl; eexists; (split; [reflexivity|]);
    simpl; eexists; reflexivity.
Qed.

End Exit.

(** C3, as amended.  When the glyph of a byte of the text is reported in a
    format other than outline, and the bytes before it were processed,
    [rasterizeText] does not return: the line "Invalid Glyph Format" is
    printed and the process is ended by [exit(0)], with the status of a
    successful run.  No mesh is returned, not even an empty one, and no
    error reaches the caller. *)
Theorem non_outline_glyph_exits {FT : FreeType} {VE : Outliner}
    {P2T : Poly2Tri} (text : string) (fontHeight bezierSteps : Z) (w : World)
    (pre post : list ascii) (ch : ascii) (m : TextMesh) (offset : Q)
    (wi : World) (g : FT_GlyphRec) :
  list_ascii_of_string text = pre ++ ch :: post ->
  letterLoop pre bezierSteps 0 [] (sizedWorld w fontHeight)
    = Returned (m, offset) wi ->
  FT_Get_Glyph (loadedGlyph wi ch) = Some g ->
  is_outline (format g) = false ->
  exists wx,
    rasterizeText text fontHeight bezierSteps w = Exited 0 wx /\
    (exists lines,
       stdout wx = lines ++ [("Invalid Glyph Format" ++ newline)%string]) /\
    (forall mesh w',
       rasterizeText text fontHeight bezierSteps w <> Returned mesh w') /\
    ~ surfacesError (rasterizeText text fontHeight bezierSteps w).
Proof.
  intros Etext Hpre Hg Ho.
  destruct (addOneCharacter_not_outline ch bezierSteps offset wi g Hg Ho)
    as (wx & Hexit & Hout).
  assert (E : rasterizeText text fontHeight bezierSteps w = Exited 0 wx).
  { unfold rasterizeText, bind, get, set_mFace, modify. simpl.
    fold (sizedWorld w fontHeight).
    rewrite Etext, letterLoop_app_outcome, Hpre. simpl.
    unfold bind. now rewrite Hexit. }
  exists wx. rewrite E. repeat split; try assumption.
  - discriminate.
  - simpl. intros H. now apply H.
Qed.

(** The letter A in the sample font that has bitmaps only. *)
Lemma non_outline_glyph_exits_witness :
  exists wx,
    Sample.rasterize "A" 12 4 (Sample.fresh Sample.bitmapFont) = Exited 0 wx /\
    exists lines,
      stdout wx = lines ++ [("Invalid Glyph Format" ++ newline)%string].
Proof.
  destruct (@non_outline_glyph_exits Sample.freetype Sample.outliner
              Sample.poly2tri "A" 12 4 (Sample.fresh Sample.bitmapFont)
              [] [] "A"%char [] 0
              (sizedWorld (Sample.fresh Sample.bitmapFont) 12)
              (mkGlyph FT_GLYPH_FORMAT_BITMAP)
              eq_refl eq_refl eq_refl eq_refl)
    as (wx & Hexit & Hout & _).
  exists wx. split; [exact Hexit | exact Hout].
Defined.

(** C3, the claim as stated, fails: on the letter A of the bitmap-only font
    the process ends with status 0 and nothing surfaces as an error. *)
Lemma bitmap_font_exits_with_status_zero :
  exists wx,
    Sample.rasterize "A" 12 4 (Sample.fresh Sample.bitmapFont) = Exited 0 wx /\
    ~ surfacesError
        (Sample.rasterize "A" 12 4 (Sample.fresh Sample.bitmapFont)).
Proof.
  eexists. split; [vm_compute; reflexivity|].
  vm_compute. intros H. now apply H.
Qed.

(** ** Two calls in a row *)

(** C2 fails on the code: the statics of [addOneCharacter] are not set back
    when a call of [rasterizeText] starts.  The text AV in the sample font,
    rasterized twice in a row: the font is the same in both calls, yet in
    the second call the letter A is kerned and hinted against the letter V
    that ended the first call, and starts at x = -3 instead of 0.  With the
    statics set back to 0 the second call gives the mesh of the first. *)
Lemma second_call_differs :
  let w0 := Sample.fresh (Sample.sampleFont 320) in
  exists m1 w1 m2 w2,
    Sample.rasterize "AV" 12 4 w0 = Returned m1 w1 /\
    Sample.rasterize "AV" 12 4 w1 = Returned m2 w2 /\
    Sample.font (mFace w1) = Sample.font (mFace w0) /\
    Sample.char_size (mFace w1) = Sample.char_size (sizedWorld w0 12).(mFace) /\
    (prevCharIndex w1, prev_rsb_delta w1) = (2%Z, 20%Z) /\
    (exists t1 t2, nth_error (concat m1) 0 = Some t1 /\
                   nth_error (concat m2) 0 = Some t2 /\
                   x (a t1) == 0 /\ x (a t2) == -3) /\
    m1 <> m2 /\
    Sample.rasterize "AV" 12 4
      (mkWorld (mFace w1) 0%Z 0%Z 0%Z (stdout w1)) = Returned m1 w1.
Proof.
  intros w0. do 4 eexists.
  split; [vm_compute; reflexivity|].
  split; [vm_compute; reflexivity|].
  split; [reflexivity|]. split; [reflexivity|]. split; [reflexivity|].
  split; [do 2 eexists; repeat split|].
  split; [discriminate | vm_compute; reflexivity].
Qed.

(** * Further properties of the rasterizer *)

(** ** More on [outlinePostprocess] *)

(** X1.  A mesh without any triangle -- the empty mesh, or the mesh of a
    text of blanks -- comes out of [outlinePostprocess] as it went in: the
    minimum stays at [FLT_MAX] and there is nothing to move. *)
Theorem outlinePostprocess_without_triangles (m : TextMesh) :
  (forall run, In run m -> run = []) -> outlinePostprocess m = m.
Proof.
  intros H. unfold outlinePostprocess. generalize (Qabs (findMin m)).
  intros k. induction m as [|run m IH]; simpl; [reflexivity|].
  rewrite (H run (or_introl eq_refl)). simpl.
  rewrite IH; [reflexivity|]. intros r Hr. apply H. now right.
Qed.

Lemma outlinePostprocess_without_triangles_witness :
  outlinePostprocess [[]; []; []] = [[]; []; []].
Proof.
  apply outlinePostprocess_without_triangles.
  intros run [<-|[<-|[<-|[]]]]; reflexivity.
Defined.

(** X2.  [outlinePostprocess] never moves a vertex down: the y-coordinate
    of every vertex after the pass is at least its y-coordinate before. *)
Theorem outlinePostprocess_never_lowers (m : TextMesh) :
  Forall2 (fun v v' => y v <= y v')
          (vertices m) (vertices (outlinePostprocess m)).
Proof.
  rewrite vertices_outlinePostprocess. apply Forall2_map_r.
  intros v. simpl. pose proof (Qabs_nonneg (findMin m)). lra.
Qed.

(** ** More on [addOneCharacter] and [rasterizeText] *)

Section Letters.

Context {FT : FreeType} {VE : Outliner} {P2T : Poly2Tri}.

Ltac run_all := unfold addOneCharacter, bind, get, ret, modify, report,
  printf, set_mFace, set_prevCharIndex, set_curCharIndex, set_prev_rsb_delta,
  throw, exit, undefined.

Lemma contourLoop_no_outer (v : list Contour) (offset : Q) (cs : list nat)
    (acc : list Tri) :
  (forall c, In c cs -> GetDirection (GetContour v c) = false) ->
  contourLoop v offset cs acc = Some acc.
Proof.
  induction cs as [|c cs IH]; intros H; simpl; [reflexivity|].
  rewrite (H c (or_introl eq_refl)). apply IH. intros c' Hc'. apply H.
  now right.
Qed.

(** What a call that throws leaves behind. *)
Lemma addOneCharacter_Threw (ch : ascii) (bezierSteps : Z) (offset : Q)
    (w w' : World) :
  addOneCharacter ch bezierSteps offset w = Threw w' ->
  w' = with_prev_rsb_delta (rsb_delta (loadedGlyph w ch))
         (mkWorld (loadedFace w ch) (prevCharIndex w) (charIndex w ch)
                  (prev_rsb_delta w)
                  (if (loadError w ch =? 0)%Z then stdout w
                   else stdout w ++ [("FT_Load_Glyph failed" ++ newline)%string])).
Proof.
  unfold loadedGlyph, loadedFace, loadError, charIndex. run_all. simpl.
  destruct (FT_Load_Glyph (mFace w) (FT_Get_Char_Index (mFace w) ch)
              FT_LOAD_DEFAULT) as [err face]; simpl.
  destruct (FT_Get_Glyph (glyph face)) as [g|];
    [|destruct (err =? 0)%Z; discriminate].
  destruct (is_outline (format g));
    [|destruct (err =? 0)%Z; discriminate].
  destruct (err =? 0)%Z; simpl; destruct (contourLoop _ _ _ _); simpl;
    intros H; inversion H; reflexivity.
Qed.

(** The outcome of the loop over a text is that of its first letter that
    does not return. *)
Lemma letterLoop_first_failure (pre post : list ascii) (ch : ascii)
    (bezierSteps : Z) (offset0 : Q) (w0 : World) (m : TextMesh) (offset : Q)
    (wi : World) :
  letterLoop pre bezierSteps offset0 [] w0 = Returned (m, offset) wi ->
  letterLoop (pre ++ ch :: post) bezierSteps offset0 [] w0 =
  match addOneCharacter ch bezierSteps offset wi with
  | Returned r w1 => letterLoop post bezierSteps (snd r) (m ++ [fst r]) w1
  | Threw w1 => Threw w1
  | Exited st w1 => Exited st w1
  | Undefined w1 => Undefined w1
  end.
Proof.
  intros H. rewrite letterLoop_app_outcome, H. reflexivity.
Qed.

End Letters.

(** X4.  A glyph that is an outline but has no contour with the direction
    flag set -- a blank, or contours that are all holes -- gives an empty
    run: the call returns without asking the triangulator, with the offset
    moved by kerning, hinting and the advance width. *)
Theorem glyph_without_outer_contour {FT : FreeType} {VE : Outliner}
    {P2T : Poly2Tri} (ch : ascii) (bezierSteps : Z) (offset : Q) (w : World)
    (g : FT_GlyphRec) :
  FT_Get_Glyph (loadedGlyph w ch) = Some g ->
  is_outline (format g) = true ->
  (forall contour, In contour (contoursOf w ch bezierSteps) ->
                   GetDirection contour = false) ->
  addOneCharacter ch bezierSteps offset w =
  Returned ([], penPosition w ch offset + advanceWidth w ch) (worldAfter w ch).
Proof.
  intros Hg Ho Hdir. apply addOneCharacter_Returned.
  split; [now exists g|]. split; [|split; reflexivity].
  apply contourLoop_no_outer. intros c0 Hc. apply Hdir, GetContour_In.
  apply in_seq in Hc. lia.
Qed.

(** A space in the sample font, with a triangulator that always throws. *)
Lemma glyph_without_outer_contour_witness :
  let w := Sample.fresh (Sample.sampleFont 320) in
  @addOneCharacter Sample.freetype Sample.outliner
    {| CDT_Triangulate := fun _ _ => None |} " "%char 4 0 w =
  Returned ([], @penPosition Sample.freetype w " "%char 0
                + @advanceWidth Sample.freetype w " "%char)
           (@worldAfter Sample.freetype w " "%char).
Proof.
  intros w.
  apply (@glyph_without_outer_contour Sample.freetype Sample.outliner
           {| CDT_Triangulate := fun _ _ => None |} " "%char 4 0 w
           (mkGlyph FT_GLYPH_FORMAT_OUTLINE) eq_refl eq_refl).
  intros contour H. vm_compute in H. destruct H.
Defined.

(** X5.  One letter that does not return decides the whole call: when the
    letters before it were processed and the call for it throws, ends the
    process or is undefined, [rasterizeText] does the same, in the same
    world, and returns no mesh -- the runs of the letters before are
    lost. *)
Theorem first_failure_decides {FT : FreeType} {VE : Outliner}
    {P2T : Poly2Tri} (text : string) (fontHeight bezierSteps : Z) (w : World)
    (pre post : list ascii) (ch : ascii) (m : TextMesh) (offset : Q)
    (wi : World) :
  list_ascii_of_string text = pre ++ ch :: post ->
  letterLoop pre bezierSteps 0 [] (sizedWorld w fontHeight)
    = Returned (m, offset) wi ->
  (forall w', addOneCharacter ch bezierSteps offset wi = Threw w' ->
     rasterizeText text fontHeight bezierSteps w = Threw w') /\
  (forall status w',
     addOneCharacter ch bezierSteps offset wi = Exited status w' ->
     rasterizeText text fontHeight bezierSteps w = Exited status w') /\
  (forall w', addOneCharacter ch bezierSteps offset wi = Undefined w' ->
     rasterizeText text fontHeight bezierSteps w = Undefined w').
Proof.
  intros Etext Hpre.
  assert (E : rasterizeText text fontHeight bezierSteps w =
    match letterLoop (pre ++ ch :: post) bezierSteps 0 []
            (sizedWorld w fontHeight) with
    | Returned r w1 => Returned (outlinePostprocess (fst r)) w1
    | Threw w1 => Threw w1
    | Exited st w1 => Exited st w1
    | Undefined w1 => Undefined w1
    end).
  { unfold rasterizeText, bind, get, set_mFace, modify, ret. simpl.
    fold (sizedWorld w fontHeight). now rewrite Etext. }
  rewrite E, (letterLoop_first_failure _ _ _ _ _ _ _ _ _ Hpre).
  repeat split; intros; match goal with H : _ = _ |- _ => now rewrite H end.
Qed.

(** The text "A!" in the sample font, with a triangulator that takes
    triangles and throws on anything else: the square of the second letter
    makes the call throw. *)
Lemma first_failure_decides_witness :
  let P := {| CDT_Triangulate := fun polyline holes =>
                match polyline with
                | [p; q; r] => Some [mkTriangle p q r]
                | _ => None
                end |} in
  exists w',
    @rasterizeText Sample.freetype Sample.outliner P "A!" 12 4
      (Sample.fresh (Sample.sampleFont 320)) = Threw w'.
Proof.
  intros P.
  pose (w := Sample.fresh (Sample.sampleFont 320)).
  pose (wi := @worldAfter Sample.freetype (sizedWorld w 12) "A"%char).
  destruct (@addOneCharacter Sample.freetype Sample.outliner P "!"%char 4
              (0 + inject_Z 11) wi) as [r w1|w1|st w1|w1] eqn:E;
    try (vm_compute in E; discriminate).
  exists w1.
  refine (proj1 (@first_failure_decides Sample.freetype Sample.outliner P
            "A!" 12 4 w ["A"%char] [] "!"%char _ (0 + inject_Z 11) wi
            eq_refl _) w1 E).
  vm_compute. reflexivity.
Defined.

(** X6.  When [FT_Get_Glyph] fails for a letter, the call prints
    "FT_Get_Glyph failed" and then reads the format through the glyph
    pointer that was never set: it has no defined behaviour. *)
Theorem failed_FT_Get_Glyph_is_undefined {FT : FreeType} {VE : Outliner}
    {P2T : Poly2Tri} (ch : ascii) (bezierSteps : Z) (offset : Q) (w : World) :
  FT_Get_Glyph (loadedGlyph w ch) = None ->
  exists wx,
    addOneCharacter ch bezierSteps offset w = Undefined wx /\
    (exists lines,
       stdout wx = lines ++ [("FT_Get_Glyph failed" ++ newline)%string]) /\
    prevCharIndex wx = prevCharIndex w /\
    prev_rsb_delta wx = prev_rsb_delta w.
Proof.
  unfold loadedGlyph, loadedFace, charIndex. intros Hg.
  unfold addOneCharacter, bind, get, ret, modify, report, printf, set_mFace,
    set_curCharIndex, undefined. simpl.
  destruct (FT_Load_Glyph (mFace w) (FT_Get_Char_Index (mFace w) ch)
              FT_LOAD_DEFAULT) as [err face]; simpl in *.
  rewrite Hg.
  destruct (err =? 0)%Z; simpl; eexists; (split; [reflexivity|]); simpl;
    (split; [eexists; reflexivity | split; reflexivity]).
Qed.

(** A letter that the sample font does not have, in a font without the
    missing glyph: the slot stays empty and [FT_Get_Glyph] fails. *)
Lemma failed_FT_Get_Glyph_is_undefined_witness :
  let f := Sample.mkFont [] [] [] false in
  exists wx,
    @addOneCharacter Sample.freetype Sample.outliner Sample.poly2tri
      "A"%char 4 0 (Sample.fresh f) = Undefined wx.
Proof.
  intros f.
  destruct (@failed_FT_Get_Glyph_is_undefined Sample.freetype Sample.outliner
              Sample.poly2tri "A"%char 4 0 (Sample.fresh f) eq_refl)
    as (wx & H & _).
  now exists wx.
Defined.

(** X7.  What a call of [rasterizeText] that returns leaves in the statics
    of [addOneCharacter].  On the empty text they are as before the call.
    On any other text the previous glyph index is the glyph index of the
    last letter, and the carried delta is the right side bearing delta of
    the glyph that is in the slot of the face: the next call starts from
    these values, not from 0. *)
Theorem statics_after_a_call {FT : FreeType} {VE : Outliner} {P2T : Poly2Tri}
    (text : string) (fontHeight bezierSteps : Z) (w w' : World)
    (mesh : TextMesh) :
  rasterizeText text fontHeight bezierSteps w = Returned mesh w' ->
  (text = EmptyString ->
   prevCharIndex w' = prevCharIndex w /\
   curCharIndex w' = curCharIndex w /\
   prev_rsb_delta w' = prev_rsb_delta w) /\
  (text <> EmptyString ->
   exists pre ch wi,
     list_ascii_of_string text = pre ++ [ch] /\
     w' = worldAfter wi ch /\
     prevCharIndex w' = FT_Get_Char_Index (mFace wi) ch /\
     curCharIndex w' = prevCharIndex w' /\
     prev_rsb_delta w' = rsb_delta (glyph (mFace w'))).
Proof.
  intros H. apply rasterizeText_Returned in H as (lm & off & Hl & _). split.
  - intros ->. simpl in Hl. unfold ret in Hl. inversion Hl; subst.
    repeat split.
  - intros Hne.
    destruct (exists_last (l := list_ascii_of_string text)) as (pre & ch & E).
    { intros E. apply Hne. destruct text; [reflexivity | discriminate]. }
    rewrite E in Hl.
    apply letterLoop_app in Hl as (m1 & o1 & wi & m2 & _ & Hlast & _).
    apply letterLoop_cons in Hlast as (tris & o2 & w2 & m3 & Hch & Hnil & _).
    simpl in Hnil. unfold ret in Hnil. inversion Hnil; subst.
    apply addOneCharacter_Returned in Hch as (_ & _ & _ & ->).
    exists pre, ch, wi. repeat split; assumption.
Qed.

(** The text AV in the sample font leaves the glyph index of V and its
    delta of 20. *)
Lemma statics_after_a_call_witness :
  exists mesh w',
    Sample.rasterize "AV" 12 4 (Sample.fresh (Sample.sampleFont 320))
      = Returned mesh w' /\
    prevCharIndex w' = 2%Z /\ prev_rsb_delta w' = 20%Z.
Proof.
  eexists. eexists. split; [vm_compute; reflexivity|].
  match goal with
  | |- prevCharIndex ?w1 = _ /\ _ =>
      destruct (proj2 (@statics_after_a_call Sample.freetype Sample.outliner
                  Sample.poly2tri "AV" 12 4
                  (Sample.fresh (Sample.sampleFont 320)) w1 _ eq_refl)
                ltac:(discriminate))
        as (pre & ch & wi & _ & _ & _ & _ & Hd)
  end.
  split; [reflexivity | exact Hd].
Defined.

(** X8.  A call of [addOneCharacter] that throws has already stored the
    right side bearing delta of its glyph and the current glyph index, but
    not yet the previous glyph index: the statics are left with the delta
    of the new glyph next to the index of the old one. *)
Theorem throw_leaves_statics_half_updated {FT : FreeType} {VE : Outliner}
    {P2T : Poly2Tri} (ch : ascii) (bezierSteps : Z) (offset : Q)
    (w w' : World) :
  addOneCharacter ch bezierSteps offset w = Threw w' ->
  prevCharIndex w' = prevCharIndex w /\
  curCharIndex w' = charIndex w ch /\
  prev_rsb_delta w' = rsb_delta (loadedGlyph w ch) /\
  mFace w' = loadedFace w ch.
Proof.
  intros H. apply addOneCharacter_Threw in H. subst w'. repeat split.
Qed.

(** The letter V after the letter A, with a triangulator that always
    throws: the delta 20 of V is stored, the previous index is still the
    index of A. *)
Lemma throw_leaves_statics_half_updated_witness :
  let P := {| CDT_Triangulate := fun _ _ => None |} in
  let w := @mkWorld Sample.freetype
             (Sample.mkFace (Sample.sampleFont 320) 768 Sample.glyph_A)
             1%Z 1%Z 0%Z [] in
  exists w',
    @addOneCharacter Sample.freetype Sample.outliner P "V"%char 4 11 w
      = Threw w' /\
    prevCharIndex w' = 1%Z /\ prev_rsb_delta w' = 20%Z.
Proof.
  intros P w. eexists. split; [vm_compute; reflexivity|].
  match goal with
  | |- prevCharIndex ?w1 = _ /\ _ =>
      destruct (@throw_leaves_statics_half_updated Sample.freetype
                  Sample.outliner P "V"%char 4 11 w w1 eq_refl)
        as (Hp & _ & Hd & _)
  end.
  split; [exact Hp | exact Hd].
Defined.

Section Printing.

Context {FT : FreeType} {VE : Outliner} {P2T : Poly2Tri}.

Lemma letterLoop_stdout (text : list ascii) (bezierSteps : Z) (offset : Q)
    (w w' : World) (m : TextMesh) (offset' : Q) :
  letterLoop text bezierSteps offset [] w = Returned (m, offset') w' ->
  exists n, (n <= length text)%nat /\
    stdout w' = stdout w ++
                repeat ("FT_Load_Glyph failed" ++ newline)%string n.
Proof.
  revert offset w m. induction text as [|ch rest IH]; intros offset w m H.
  - simpl in H. unfold ret in H. inversion H; subst. exists 0%nat.
    split; [lia|]. simpl. now rewrite app_nil_r.
  - apply letterLoop_cons in H as (tris & o1 & w1 & m' & Ha & Hl & _).
    apply addOneCharacter_Returned in Ha as (_ & _ & _ & ->).
    apply IH in Hl as (n & Hn & E). rewrite E. simpl.
    destruct (loadError w ch =? 0)%Z.
    + exists n. split; [lia | reflexivity].
    + exists (S n). split; [lia|]. rewrite <- app_assoc. reflexivity.
Qed.

Lemma addOneCharacter_steps (ch : ascii) (bezierSteps k : Z) (offset : Q)
    (w : World) :
  addOneCharacter ch (bezierSteps + 65536 * k) offset w =
  addOneCharacter ch bezierSteps offset w.
Proof.
  unfold addOneCharacter.
  replace ((bezierSteps + 65536 * k) mod 65536)%Z
    with (bezierSteps mod 65536)%Z; [reflexivity|].
  rewrite Z.mul_comm. symmetry. apply Z_mod_plus_full.
Qed.

Lemma letterLoop_steps (text : list ascii) (bezierSteps k : Z) (offset : Q)
    (acc : TextMesh) (w : World) :
  letterLoop text (bezierSteps + 65536 * k) offset acc w =
  letterLoop text bezierSteps offset acc w.
Proof.
  revert offset acc w. induction text as [|ch rest IH]; intros offset acc w;
    [reflexivity|].
  cbn [letterLoop]. unfold bind. rewrite addOneCharacter_steps.
  destruct (addOneCharacter ch bezierSteps offset w); try reflexivity.
  apply IH.
Qed.

End Printing.

(** X9.  A call of [rasterizeText] that returns has printed nothing but
    lines "FT_Load_Glyph failed", at most one for each byte of the text: a
    glyph that fails to load is reported and the call goes on with what the
    glyph slot holds. *)
Theorem returning_call_prints_load_failures_only {FT : FreeType}
    {VE : Outliner} {P2T : Poly2Tri} (text : string)
    (fontHeight bezierSteps : Z) (w w' : World) (mesh : TextMesh) :
  rasterizeText text fontHeight bezierSteps w = Returned mesh w' ->
  exists n, (n <= String.length text)%nat /\
    stdout w' = stdout w ++
                repeat ("FT_Load_Glyph failed" ++ newline)%string n.
Proof.
  intros H. apply rasterizeText_Returned in H as (lm & off & Hl & _).
  apply letterLoop_stdout in Hl as (n & Hn & E). exists n. split; [|exact E].
  replace (String.length text) with (length (list_ascii_of_string text));
    [exact Hn|].
  clear. induction text; simpl; auto.
Qed.

(** The text AV in the sample font prints nothing. *)
Lemma returning_call_prints_load_failures_only_witness :
  exists mesh w' n,
    Sample.rasterize "AV" 12 4 (Sample.fresh (Sample.sampleFont 320))
      = Returned mesh w' /\
    stdout w' = [] ++ repeat ("FT_Load_Glyph failed" ++ newline)%string n.
Proof.
  eexists. eexists.
  match goal with
  | |- exists n, ?call = Returned ?m ?w1 /\ _ =>
      assert (E : call = Returned m w1) by (vm_compute; reflexivity);
      destruct (@returning_call_prints_load_failures_only Sample.freetype
                  Sample.outliner Sample.poly2tri _ _ _ _ _ _ E)
        as (n & _ & Hout)
  end.
  exists n. split; [exact E | exact Hout].
Defined.

(** X10.  Only the low 16 bits of [bezierSteps] count: the Vectoriser gets
    the value cast to [unsigned short], so two values that differ by a
    multiple of 65536 give the same outcome, in every world. *)
Theorem bezierSteps_wraps_at_16_bits {FT : FreeType} {VE : Outliner}
    {P2T : Poly2Tri} (text : string) (fontHeight bezierSteps k : Z)
    (w : World) :
  rasterizeText text fontHeight (bezierSteps + 65536 * k) w =
  rasterizeText text fontHeight bezierSteps w.
Proof.
  unfold rasterizeText, bind, get, set_mFace, modify.
  now rewrite letterLoop_steps.
Qed.

(** * Properties of the progress record and of the application shell *)

(** X11.  [resetLoad] and [resetSave] together bring a progress record back
    to the state of a newly made one, in either order and from any state;
    [resetLoad] keeps the two members of saving and [resetSave] the five
    members of loading. *)
Theorem resets_restore_constructed (p : GeometryProgress.t) :
  GeometryProgress.resetSave (GeometryProgress.resetLoad p)
    = GeometryProgress.constructed /\
  GeometryProgress.resetLoad (GeometryProgress.resetSave p)
    = GeometryProgress.constructed /\
  GeometryProgress.resetSave (GeometryProgress.resetLoad p)
    = GeometryProgress.resetLoad (GeometryProgress.resetSave p) /\
  (GeometryProgress.createScenePercentage (GeometryProgress.resetLoad p),
   GeometryProgress.exportFilePercentage (GeometryProgress.resetLoad p))
    = (GeometryProgress.createScenePercentage p,
       GeometryProgress.exportFilePercentage p) /\
  (let q := GeometryProgress.resetSave p in
   GeometryProgress.importRenderPercentage q
     = GeometryProgress.importRenderPercentage p /\
   GeometryProgress.importComputePercentage q
     = GeometryProgress.importComputePercentage p /\
   GeometryProgress.buffersPercentage q
     = GeometryProgress.buffersPercentage p /\
   GeometryProgress.aabbTreePercentage q
     = GeometryProgress.aabbTreePercentage p /\
   GeometryProgress.polyhedronPercentage q
     = GeometryProgress.polyhedronPercentage p).
Proof. destruct p. repeat split. Qed.

(** X12.  The thread pool is made with at least two threads whatever
    [hardware_concurrency()] reports, 0 included: two threads when it
    reports less than 3, and one less than reported from 3 on. *)
Theorem thread_pool_has_two_threads (n : Z) :
  (0 <= n < 2 ^ 32)%Z ->
  (2 <= MainApplication.threadPoolSize n)%Z /\
  (n < 3 -> MainApplication.threadPoolSize n = 2)%Z /\
  (3 <= n -> MainApplication.threadPoolSize n = n - 1)%Z.
Proof.
  intros H. unfold MainApplication.threadPoolSize.
  assert (E : ((Z.max 3 n - 1) mod 2 ^ 64 = Z.max 3 n - 1)%Z).
  { apply Z.mod_small. change (2 ^ 64)%Z with 18446744073709551616%Z.
    change (2 ^ 32)%Z with 4294967296%Z in H. lia. }
  rewrite E. lia.
Qed.

Lemma thread_pool_has_two_threads_witness :
  (2 <= MainApplication.threadPoolSize 0)%Z.
Proof.
  apply (thread_pool_has_two_threads 0). split; [lia | reflexivity].
Defined.

Lemma LONG_in_range (n : Z) :
  (- 2 ^ 31 <= n < 2 ^ 31)%Z -> MainApplication.LONG n = n.
Proof.
  intros H. unfold MainApplication.LONG.
  change (2 ^ 31)%Z with 2147483648%Z in *.
  change (2 ^ 32)%Z with 4294967296%Z.
  rewrite Z.mod_small by lia. lia.
Qed.

(** X13.  A window that is not minimized, whose rectangle has its four
    [LONG] sides at least three units apart and less than 2^31 apart (so
    that no difference wraps), and that is the window found at every point
    in the interior of its rectangle is not reported obscured: the middle
    checkpoint lies in the interior.  Without [CINDER_MSW_DESKTOP] no
    window is ever reported obscured. *)
Theorem visible_window_is_not_obscured (os : MainApplication.Desktop)
    (wnd : MainApplication.HWND) (r : MainApplication.RECT) :
  MainApplication.IsIconic os wnd = false ->
  MainApplication.GetWindowRect os wnd = Some r ->
  (- 2 ^ 31 <= MainApplication.left r)%Z ->
  (MainApplication.right r < 2 ^ 31)%Z ->
  (- 2 ^ 31 <= MainApplication.top r)%Z ->
  (MainApplication.bottom r < 2 ^ 31)%Z ->
  (3 <= MainApplication.right r - MainApplication.left r < 2 ^ 31)%Z ->
  (3 <= MainApplication.bottom r - MainApplication.top r < 2 ^ 31)%Z ->
  (forall px py,
     (MainApplication.left r < px < MainApplication.right r - 1)%Z ->
     (MainApplication.top r < py < MainApplication.bottom r - 1)%Z ->
     MainApplication.WindowFromPoint os px py = wnd) ->
  MainApplication.isWindowObscured true os wnd = false /\
  MainApplication.isWindowObscured false os wnd = false.
Proof.
  intros Hicon Hrect Hl Hr Ht Hb Hw Hh Hvis. split; [|reflexivity].
  unfold MainApplication.isWindowObscured. rewrite Hicon, Hrect.
  assert (Hq : forall lo hi,
    (- 2 ^ 31 <= lo -> hi < 2 ^ 31 -> 3 <= hi - lo < 2 ^ 31 ->
     lo < MainApplication.LONG
            (lo + Z.quot (MainApplication.LONG (hi - lo)) 2) < hi - 1)%Z).
  { intros lo hi Hlo Hhi Hd.
    change (2 ^ 31)%Z with 2147483648%Z in *.
    rewrite (LONG_in_range (hi - lo))
      by (change (2 ^ 31)%Z with 2147483648%Z; lia).
    rewrite Z.quot_div_nonneg by lia.
    pose proof (Z.div_mod (hi - lo) 2 ltac:(lia)).
    pose proof (Z.mod_pos_bound (hi - lo) 2 ltac:(lia)).
    rewrite LONG_in_range by (change (2 ^ 31)%Z with 2147483648%Z; lia).
    lia. }
  rewrite (Hvis _ _ (Hq _ _ Hl Hr Hw) (Hq _ _ Ht Hb Hh)), Z.eqb_refl. simpl.
  now rewrite andb_false_r.
Qed.

(** A window of 950 by 570 at the origin, alone on the desktop. *)
Lemma visible_window_is_not_obscured_witness :
  MainApplication.isWindowObscured true
    (MainApplication.mkDesktop (fun _ => false)
       (fun _ => Some (MainApplication.mkRECT 0 0 950 570))
       (fun _ _ => 7%Z))
    7%Z = false.
Proof.
  refine (proj1 (visible_window_is_not_obscured
                   (MainApplication.mkDesktop (fun _ => false)
                      (fun _ => Some (MainApplication.mkRECT 0 0 950 570))
                      (fun _ _ => 7%Z))
                   7%Z (MainApplication.mkRECT 0 0 950 570)
                   eq_refl eq_refl _ _ _ _ _ _ _)).
  all: simpl; try reflexivity; try (change (2 ^ 31)%Z with 2147483648%Z; lia).
Defined.

(** ** Focus and drawing *)

Lemma focusStep_keeps_skip_unfocused (msw : bool) (wnd : MainApplication.HWND)
    (st : MainApplication.Focus) (ev : MainApplication.FocusEvent) :
  (MainApplication.mShouldSkipDraw st = true ->
   MainApplication.mIsFocused st = false) ->
  MainApplication.mShouldSkipDraw (MainApplication.focusStep msw wnd st ev)
    = true ->
  MainApplication.mIsFocused (MainApplication.focusStep msw wnd st ev) = false.
Proof.
  destruct st as [focused skip demo rate]. simpl. intros Hinv.
  destruct ev as [os frames| |]; simpl.
  - unfold MainApplication.update. cbn [MainApplication.mIsFocused
      MainApplication.mShouldSkipDraw MainApplication.mShowDemoWindow].
    destruct msw; [|exact Hinv].
    destruct focused; [exact Hinv|]. cbn [negb].
    destruct (_ || _); [|reflexivity].
    destruct (MainApplication.isWindowObscured true os wnd); reflexivity.
  - reflexivity.
  - discriminate.
Qed.

(** X14.  Drawing is skipped only while the window is not focused.  When
    that holds of a state it holds after any sequence of frames and focus
    signals; so a focused window is always drawn: [draw] clears the screen
    and draws the toolbar, the side pane, the model view and the progress
    indicator. *)
Theorem focused_window_is_drawn (msw : bool) (wnd : MainApplication.HWND)
    (evs : list MainApplication.FocusEvent) (st : MainApplication.Focus) :
  (MainApplication.mShouldSkipDraw st = true ->
   MainApplication.mIsFocused st = false) ->
  let st' := fold_left (MainApplication.focusStep msw wnd) evs st in
  (MainApplication.mShouldSkipDraw st' = true ->
   MainApplication.mIsFocused st' = false) /\
  (MainApplication.mIsFocused st' = true ->
   exists demo,
     MainApplication.draw st' =
     MainApplication.gl_clear 16579836 :: demo ++
     [MainApplication.mToolbar_draw; MainApplication.mSidePane_draw;
      MainApplication.mModelView_draw;
      MainApplication.mProgressIndicator_draw]).
Proof.
  intros Hinv st'.
  assert (H : MainApplication.mShouldSkipDraw st' = true ->
              MainApplication.mIsFocused st' = false).
  { subst st'. revert st Hinv. induction evs as [|ev evs IH]; intros st Hinv;
      simpl; [exact Hinv|].
    apply IH. now apply focusStep_keeps_skip_unfocused. }
  split; [exact H|]. intros Hf. unfold MainApplication.draw.
  destruct (MainApplication.mShouldSkipDraw st') eqn:Es.
  - rewrite (H eq_refl) in Hf. discriminate.
  - eexists. reflexivity.
Qed.

(** The window loses the focus, is found obscured at frame 48, and gets
    the focus back: it is drawn. *)
Lemma focused_window_is_drawn_witness :
  let os := MainApplication.mkDesktop (fun _ => true) (fun _ => None)
              (fun _ _ => 0%Z) in
  let st := fold_left (MainApplication.focusStep true 7%Z)
              [MainApplication.WillResignActive;
               MainApplication.Update os 48;
               MainApplication.DidBecomeActive]
              (MainApplication.mkFocus true false false None) in
  exists demo,
    MainApplication.draw st =
    MainApplication.gl_clear 16579836 :: demo ++
    [MainApplication.mToolbar_draw; MainApplication.mSidePane_draw;
     MainApplication.mModelView_draw;
     MainApplication.mProgressIndicator_draw].
Proof.
  intros os st.
  refine (proj2 (focused_window_is_drawn true 7%Z
                   [MainApplication.WillResignActive;
                    MainApplication.Update os 48;
                    MainApplication.DidBecomeActive]
                   (MainApplication.mkFocus true false false None) _) _).
  - discriminate.
  - reflexivity.
Defined.

(** X15.  Once drawing is skipped it stays skipped until the window becomes
    active again: no frame and no loss of focus brings it back, also when
    [update] finds the window visible again; [draw] then makes no call at
    all.  [didBecomeActive] ends it from any state. *)
Theorem skipping_lasts_until_active (msw : bool) (wnd : MainApplication.HWND)
    (evs : list MainApplication.FocusEvent) (st : MainApplication.Focus) :
  MainApplication.mShouldSkipDraw st = true ->
  (forall ev, In ev evs -> ev <> MainApplication.DidBecomeActive) ->
  let st' := fold_left (MainApplication.focusStep msw wnd) evs st in
  MainApplication.mShouldSkipDraw st' = true /\
  MainApplication.draw st' = [] /\
  MainApplication.draw (MainApplication.didBecomeActive st') <> [].
Proof.
  intros Hskip Hev st'.
  assert (H : MainApplication.mShouldSkipDraw st' = true).
  { subst st'. revert st Hskip. induction evs as [|ev evs IH];
      intros st Hskip; simpl; [exact Hskip|].
    apply IH; [intros e He; apply Hev; now right|].
    destruct ev as [os frames| |]; simpl.
    - unfold MainApplication.update.
      destruct msw; [|exact Hskip].
      destruct (negb (MainApplication.mIsFocused st)); [|exact Hskip].
      destruct (_ || _); [|exact Hskip].
      now destruct (MainApplication.isWindowObscured true os wnd).
    - exact Hskip.
    - exfalso. now apply (Hev MainApplication.DidBecomeActive (or_introl eq_refl)). }
  split; [exact H|]. split.
  - unfold MainApplication.draw. now rewrite H.
  - discriminate.
Qed.

(** An unfocused window found obscured at frame 48 and visible again at
    frame 52 is still not drawn. *)
Lemma skipping_lasts_until_active_witness :
  let hidden := MainApplication.mkDesktop (fun _ => true) (fun _ => None)
                  (fun _ _ => 0%Z) in
  let shown := MainApplication.mkDesktop (fun _ => false)
                 (fun _ => Some (MainApplication.mkRECT 0 0 950 570))
                 (fun _ _ => 7%Z) in
  let st := MainApplication.update true hidden 7%Z 48
              (MainApplication.mkFocus false false false (Some 24)) in
  MainApplication.draw
    (fold_left (MainApplication.focusStep true 7%Z)
               [MainApplication.Update shown 52] st) = [].
Proof.
  intros hidden shown st.
  refine (proj1 (proj2 (skipping_lasts_until_active true 7%Z
                          [MainApplication.Update shown 52] st eq_refl _))).
  intros ev [<-|[]]. discriminate.
Defined.

(** ** Geometry and files *)

Section FileState.

Import MainApplication.

Lemma nth_error_cut {A : Type} (l : list A) (i : nat) (j : A) :
  nth_error l i = Some j -> l = firstn i l ++ j :: skipn (S i) l.
Proof.
  revert i. induction l as [|u l IH]; intros [|i] H; simpl in *;
    try discriminate.
  - now inversion H.
  - f_equal. now apply IH.
Qed.

Lemma In_without {A : Type} (l : list A) (i : nat) (j u : A) :
  nth_error l i = Some j -> In u (without i l) -> In u l.
Proof.
  intros H Hu. rewrite (nth_error_cut l i j H). unfold without in Hu.
  apply in_app_or in Hu as [Hu|Hu]; apply in_or_app; [now left|].
  right. now right.
Qed.

Lemma filter_without_false {A : Type} (f : A -> bool) (l : list A) (i : nat)
    (j : A) :
  nth_error l i = Some j -> f j = false ->
  filter f (without i l) = filter f l.
Proof.
  intros H Hf. rewrite (nth_error_cut l i j H) at 2. unfold without.
  rewrite !filter_app. cbn [filter]. now rewrite Hf.
Qed.

Lemma filter_without_true {A : Type} (f : A -> bool) (l : list A) (i : nat)
    (j : A) (only : list A) :
  nth_error l i = Some j -> f j = true -> filter f l = only ->
  (length only <= 1)%nat ->
  only = [j] /\ filter f (without i l) = [].
Proof.
  intros H Hf E Hlen. rewrite (nth_error_cut l i j H) in E.
  rewrite filter_app in E. cbn [filter] in E. rewrite Hf in E.
  unfold without. rewrite filter_app.
  destruct (filter f (firstn i l)) as [|u A0]; cbn [app] in E.
  - destruct (filter f (skipn (S i) l)) as [|v B0].
    + now subst only.
    + subst only. simpl in Hlen. lia.
  - subst only. simpl in Hlen. rewrite length_app in Hlen. simpl in Hlen. lia.
Qed.

Lemma openFile_while_loading (g : nat) (path : string) (st : Files) :
  mGeometryInProgress st = Some g -> openFile path st = st.
Proof. intros H. unfold openFile. now rewrite H. Qed.

Lemma fileDrop_while_loading (g : nat) (files : list string) (st : Files) :
  mGeometryInProgress st = Some g -> fileDrop files st = st.
Proof.
  intros H. unfold fileDrop. destruct (mGeometry st); [|reflexivity].
  destruct files; [reflexivity|]. eapply openFile_while_loading, H.
Qed.

Lemma openFile_when_idle (path : string) (st : Files) :
  idle st -> loading (made st) path (openFile path st).
Proof.
  intros (Hp & Hj & Hd). unfold openFile, loading. rewrite Hp. simpl.
  split; [reflexivity|]. left. rewrite filter_app, Hj. simpl. now split.
Qed.

Lemma openFile_exports (path : string) (st : Files) :
  exportsHaveGeometry st -> exportsHaveGeometry (openFile path st).
Proof.
  unfold exportsHaveGeometry, openFile. intros H.
  destruct (mGeometryInProgress st); [exact H|]. simpl.
  intros (j & Hj & Hf). apply H. exists j. split; [|exact Hf].
  apply in_app_or in Hj as [Hj|[<-|[]]]; [exact Hj | discriminate].
Qed.

Lemma saveFile_exports (a b c : string) (st : Files) :
  exportsHaveGeometry st -> exportsHaveGeometry (saveFile a b c st).
Proof.
  unfold exportsHaveGeometry, saveFile. intros H.
  destruct (mGeometry st) eqn:E; [|now rewrite E]. simpl. discriminate.
Qed.

(** One event in a state in which a load is under way. *)
Lemma fileStep_loading (g : nat) (path : string) (st : Files)
    (ev : FileEvent) :
  loading g path st -> exportsHaveGeometry st ->
  exists st',
    fileStep st ev = Some st' /\ exportsHaveGeometry st' /\
    (loading g path st' \/ (ev = RunDispatched /\ installed g path st')).
Proof.
  intros Hl Hx. pose proof Hl as (Hp & Hq).
  destruct ev as [files|p'|a b c|i|]; simpl.
  - rewrite (fileDrop_while_loading g files st Hp). eauto.
  - rewrite (openFile_while_loading g p' st Hp). eauto.
  - eexists. split; [reflexivity|]. split; [now apply saveFile_exports|].
    left. unfold saveFile. destruct (mGeometry st); [|exact Hl].
    unfold loading. simpl. split; [exact Hp|].
    rewrite filter_app. simpl. now rewrite app_nil_r.
  - unfold finishJob. destruct (nth_error (mThreadPool st) i) as [j|] eqn:Ei;
      [|eauto]. destruct j as [g' p'|a b c].
    + eexists. split; [reflexivity|]. split.
      * unfold exportsHaveGeometry. simpl. intros (j & Hj & Hf). apply Hx.
        exists j. split; [eapply In_without; eassumption | exact Hf].
      * left. unfold loading. simpl. split; [exact Hp|]. right.
        destruct Hq as [(Hj & Hd)|(Hj & Hd)].
        -- destruct (filter_without_true isLoadJob _ i _ _ Ei eq_refl Hj)
             as (E & Hw); [simpl; lia|]. inversion E; subst.
           split; [exact Hw|]. rewrite filter_app, Hd. reflexivity.
        -- destruct (filter_without_true isLoadJob _ i _ _ Ei eq_refl Hj)
             as (E & _); [simpl; lia | discriminate].
    + destruct (mGeometry st) as [cur|] eqn:Eg.
      2:{ exfalso. apply Hx; [|exact Eg]. eexists. split;
            [eapply nth_error_In, Ei | reflexivity]. }
      eexists. split; [reflexivity|]. split.
      * unfold exportsHaveGeometry. simpl. intros _. discriminate.
      * left. unfold loading. simpl. split; [exact Hp|].
        rewrite (filter_without_false isLoadJob _ i _ Ei eq_refl).
        rewrite filter_app. simpl. now rewrite app_nil_r.
  - unfold runDispatched. destruct (dispatched st) as [|[p'|] rest] eqn:Ed;
      [eauto| |].
    + destruct Hq as [(Hj & Hd)|(Hj & Hd)]; simpl in Hd;
        [discriminate|]. inversion Hd; subst. rewrite Hp.
      eexists. split; [reflexivity|]. split.
      * unfold exportsHaveGeometry. simpl. discriminate.
      * right. split; [reflexivity|]. unfold installed, idle. simpl.
        repeat split; assumption.
    + eexists. split; [reflexivity|]. split; [exact Hx|].
      left. unfold loading. simpl. split; [exact Hp|]. exact Hq.
Qed.

(** One event in a state in which no load is under way. *)
Lemma fileStep_idle (st : Files) (ev : FileEvent) :
  idle st -> exportsHaveGeometry st ->
  exists st',
    fileStep st ev = Some st' /\ exportsHaveGeometry st' /\
    (idle st' \/ exists g path, loading g path st').
Proof.
  intros Hi Hx. pose proof Hi as (Hp & Hj & Hd).
  destruct ev as [files|p'|a b c|i|]; simpl.
  - eexists. split; [reflexivity|]. unfold fileDrop.
    destruct (mGeometry st); [|eauto]. destruct files as [|f0 files];
      [eauto|]. split; [now apply openFile_exports|]. right.
    eexists. eexists. now apply openFile_when_idle.
  - eexists. split; [reflexivity|]. split; [now apply openFile_exports|].
    right. eexists. eexists. now apply openFile_when_idle.
  - eexists. split; [reflexivity|]. split; [now apply saveFile_exports|].
    left. unfold saveFile. destruct (mGeometry st); [|exact Hi].
    unfold idle. simpl. split; [exact Hp|]. split; [|exact Hd].
    rewrite filter_app, Hj. reflexivity.
  - unfold finishJob. destruct (nth_error (mThreadPool st) i) as [j|] eqn:Ei;
      [|eauto]. destruct j as [g' p'|a b c].
    + destruct (filter_without_true isLoadJob _ i _ _ Ei eq_refl Hj)
        as (E & _); [simpl; lia | discriminate].
    + destruct (mGeometry st) as [cur|] eqn:Eg.
      2:{ exfalso. apply Hx; [|exact Eg]. eexists. split;
            [eapply nth_error_In, Ei | reflexivity]. }
      eexists. split; [reflexivity|]. split.
      * unfold exportsHaveGeometry. simpl. intros _. discriminate.
      * left. unfold idle. simpl. split; [exact Hp|].
        rewrite (filter_without_false isLoadJob _ i _ Ei eq_refl).
        split; [exact Hj|]. rewrite filter_app, Hd. reflexivity.
  - unfold runDispatched. destruct (dispatched st) as [|[p'|] rest] eqn:Ed;
      [eauto| |].
    + discriminate.
    + eexists. split; [reflexivity|]. split; [exact Hx|]. left.
      unfold idle. simpl. now repeat split.
Qed.

Lemma fileStep_consistent (st : Files) (ev : FileEvent) :
  consistent st -> exists st', fileStep st ev = Some st' /\ consistent st'.
Proof.
  intros ([Hi|(g & path & Hl)] & Hx).
  - destruct (fileStep_idle st ev Hi Hx) as (st' & E & Hx' & H).
    exists st'. now repeat split.
  - destruct (fileStep_loading g path st ev Hl Hx) as (st' & E & Hx' & H).
    exists st'. split; [exact E|]. split; [|exact Hx'].
    destruct H as [H|(_ & H)]; [right; eauto | left; apply H].
Qed.

Lemma fileRun_consistent (evs : list FileEvent) (st : Files) :
  consistent st -> exists st', fileRun st evs = Some st' /\ consistent st'.
Proof.
  revert st. induction evs as [|ev evs IH]; intros st H; simpl; [eauto|].
  destruct (fileStep_consistent st ev H) as (st1 & E & H1). rewrite E.
  now apply IH.
Qed.

End FileState.



(** X17.  In a consistent state -- at most one load under way, with its one
    load job or load closure, and no export job without a geometry -- any
    sequence of file drops, open and save requests, finished jobs and
    dispatched closures runs without going through a null geometry, and
    ends in a consistent state. *)
Theorem file_events_keep_consistency (evs : list MainApplication.FileEvent)
    (st : MainApplication.Files) :
  MainApplication.consistent st ->
  exists st', MainApplication.fileRun st evs = Some st' /\
              MainApplication.consistent st'.
Proof. apply fileRun_consistent. Qed.

Lemma file_events_keep_consistency_witness :
  exists st',
    MainApplication.fileRun MainApplication.sampleFiles
      [MainApplication.SaveFile "out"%string "cube"%string "stl"%string;
       MainApplication.FileDrop ["b.stl"%string; "c.stl"%string];
       MainApplication.FinishJob 0; MainApplication.RunDispatched]
    = Some st' /\
    MainApplication.consistent st'.
Proof.
  apply file_events_keep_consistency.
  split; [left; repeat split | discriminate].
Defined.

(** X18.  A load that is under way ends in one way only: whatever file
    drops, open and save requests, finished jobs and closures come in
    between, either it is still under way, or one dispatched closure took
    it over, and at that moment the current geometry and the command
    manager are on the geometry made for the request, the file name is the
    path of the request, the title is "Pepr3D - " followed by that path,
    the progress indicator is cleared and no load is under way. *)
Theorem load_installs_its_request (g : nat) (path : string)
    (evs : list MainApplication.FileEvent) (st : MainApplication.Files) :
  MainApplication.loading g path st ->
  MainApplication.exportsHaveGeometry st ->
  exists st',
    MainApplication.fileRun st evs = Some st' /\
    (MainApplication.loading g path st' \/
     exists evs1 evs2 st0 st1,
       evs = evs1 ++ MainApplication.RunDispatched :: evs2 /\
       MainApplication.fileRun st evs1 = Some st0 /\
       MainApplication.loading g path st0 /\
       MainApplication.fileStep st0 MainApplication.RunDispatched
         = Some st1 /\
       MainApplication.installed g path st1 /\
       MainApplication.fileRun st1 evs2 = Some st').
Proof.
  revert st. induction evs as [|ev evs IH]; intros st Hl Hx.
  - exists st. split; [reflexivity | now left].
  - destruct (fileStep_loading g path st ev Hl Hx)
      as (st1 & E & Hx1 & [Hl1|(-> & Hin)]).
    + destruct (IH st1 Hl1 Hx1) as (st' & Er & H). exists st'. simpl.
      rewrite E. split; [exact Er|].
      destruct H as [H|(e1 & e2 & s0 & s1 & -> & R1 & L0 & S & I & R2)];
        [now left|]. right.
      exists (ev :: e1), e2, s0, s1. simpl. rewrite E.
      split; [reflexivity|]. split; [exact R1|]. split; [exact L0|].
      split; [exact S|]. split; [exact I | exact R2].
    + assert (Hc : MainApplication.consistent st1)
        by (split; [left; apply Hin | exact Hx1]).
      destruct (fileRun_consistent evs st1 Hc) as (st' & Er & _).
      exists st'. cbn [MainApplication.fileRun]. rewrite E.
      split; [exact Er|]. right.
      exists [], evs, st, st1.
      split; [reflexivity|]. split; [reflexivity|]. split; [exact Hl|].
      split; [exact E|]. split; [exact Hin | exact Er].
Qed.

(** b.stl is being loaded; c.stl is dropped on the window, the job
    finishes and its closure runs: b.stl is the file of the application. *)
Lemma load_installs_its_request_witness :
  exists st',
    MainApplication.fileRun (MainApplication.openFile "b.stl"%string MainApplication.sampleFiles)
      [MainApplication.FileDrop ["c.stl"%string]; MainApplication.FinishJob 0;
       MainApplication.RunDispatched] = Some st' /\
    MainApplication.installed 1 "b.stl"%string st'.
Proof.
  destruct (load_installs_its_request 1 "b.stl"%string
              [MainApplication.FileDrop ["c.stl"%string]; MainApplication.FinishJob 0;
               MainApplication.RunDispatched]
              (MainApplication.openFile "b.stl"%string MainApplication.sampleFiles))
    as (st' & E & _).
  - split; [reflexivity | left; split; reflexivity].
  - intros _. discriminate.
  - exists st'. split; [exact E|]. vm_compute in E. inversion E.
    repeat split.
Defined.
